(** * Baidu OCR plugin (src/main.py): a shallow embedding and its properties

    The plugin is one Python class, [OCRPlugin], whose methods talk to a
    token endpoint, a recognition endpoint, the file system and the chat
    platform.  The embedding keeps that shape:

    - Python values coming out of [response.json()] are the inductive
      [pyval]; Python [str] is a list of code points ([pystr]);
    - floating point time stamps ([time.time()]) are binary64 numbers, the
      kernel's [float];
    - every method is a computation in a state-and-exception monad [M] over
      a [World]: the attributes of [self] together with the environment
      (clock, network, file system) and the trace of observable effects. *)

From Stdlib Require Import ZArith NArith List String Ascii Lia DecimalString.
From Stdlib Require Import Floats.PrimFloat Floats.SpecFloat Floats.FloatOps.
From stdpp Require Import gmap list.
From Equations Require Import Equations.

Set Warnings "-register-all".

(* ===================================================================== *)
(** * Python strings *)
(* ===================================================================== *)

(** A Python [str] is a sequence of Unicode code points. *)
Abbreviation pystr := (list N).

(** The bytes of a literal of this file, and their reading as UTF-8.  The
    decoder is only ever applied to the literals written below (all well
    formed), so it does not validate. *)
Fixpoint string_bytes (s : string) : list N :=
  match s with
  | EmptyString => []
  | String a s' => N_of_ascii a :: string_bytes s'
  end.

Definition cont (b : N) : N := N.land b 63.

Fixpoint utf8_decode (bs : list N) : pystr :=
  match bs with
  | [] => []
  | b0 :: r0 =>
    if (b0 <? 128)%N then b0 :: utf8_decode r0
    else
      match r0 with
      | [] => []
      | b1 :: r1 =>
        if (b0 <? 224)%N
        then (N.shiftl (N.land b0 31) 6 + cont b1)%N :: utf8_decode r1
        else
          match r1 with
          | [] => []
          | b2 :: r2 =>
            if (b0 <? 240)%N
            then (N.shiftl (N.land b0 15) 12 + N.shiftl (cont b1) 6 + cont b2)%N
                   :: utf8_decode r2
            else
              match r2 with
              | [] => []
              | b3 :: r3 =>
                (N.shiftl (N.land b0 7) 18 + N.shiftl (cont b1) 12
                 + N.shiftl (cont b2) 6 + cont b3)%N :: utf8_decode r3
              end
          end
      end
  end.

(** [py "..."] is the Python string literal ["..."]. *)
Definition py (s : string) : pystr := utf8_decode (string_bytes s).
Arguments py : simpl never.

(** The newline character, ['\n']. *)
Definition NL : N := 10.

(** [str.isspace] on one character, which is also the class [\s] of [re]
    on [str] patterns (CPython: [Py_UNICODE_ISSPACE]). *)
Definition isspace (c : N) : bool :=
  ((9 <=? c) && (c <=? 13) || (28 <=? c) && (c <=? 32)
   || (c =? 133) || (c =? 160) || (c =? 5760)
   || (8192 <=? c) && (c <=? 8202)
   || (c =? 8232) || (c =? 8233) || (c =? 8239) || (c =? 8287)
   || (c =? 12288))%N.

Fixpoint lstrip (s : pystr) : pystr :=
  match s with
  | [] => []
  | c :: s' => if isspace c then lstrip s' else s
  end.

Definition rstrip (s : pystr) : pystr := rev (lstrip (rev s)).

(** [s.strip()] *)
Definition strip (s : pystr) : pystr := rstrip (lstrip s).

(** [sep.join(parts)] for parts that are all [str]. *)
Fixpoint str_join (sep : pystr) (parts : list pystr) : pystr :=
  match parts with
  | [] => []
  | [x] => x
  | x :: rest => x ++ sep ++ str_join sep rest
  end.

(** ** [re.sub(r'\n\s*\n', '\n', text)]

    [match_blank_tail s] matches [\s*\n] at the start of [s] the way the
    backtracking engine does: the star first takes one more white space
    character (greedy), and only when the rest cannot match that way is the
    current character tried as the closing [\n].  It returns what follows
    the match. *)
Fixpoint match_blank_tail (s : pystr) : option pystr :=
  match s with
  | [] => None
  | c :: s' =>
    if isspace c then
      match match_blank_tail s' with
      | Some r => Some r
      | None => if (c =? NL)%N then Some s' else None
      end
    else None
  end.

Lemma match_blank_tail_shorter s r :
  match_blank_tail s = Some r -> (length r < length s)%nat.
Proof.
  revert r. induction s as [|c s IH]; intros r; simpl; [discriminate|].
  destruct (isspace c); [|discriminate].
  destruct (match_blank_tail s) as [r'|].
  - intros [= <-]. specialize (IH _ eq_refl). lia.
  - destruct (c =? NL)%N; [|discriminate]. intros [= <-]. lia.
Qed.

Definition inspect {A} (a : A) : {b : A | a = b} := exist _ a eq_refl.

(** The substitution scans from the left; at a [\n] that starts a match the
    whole match is replaced by one [\n] and the scan resumes after it,
    otherwise the character is copied. *)
Equations? re_sub_blank (s : pystr) : pystr by wf (length s) lt :=
  re_sub_blank [] := [];
  re_sub_blank (c :: s') with (c =? NL)%N := {
    | false := c :: re_sub_blank s';
    | true with inspect (match_blank_tail s') := {
      | exist _ (Some r) Hm := NL :: re_sub_blank r;
      | exist _ None _ := c :: re_sub_blank s' } }.
Proof. apply match_blank_tail_shorter in Hm. lia. Qed.

Example re_sub_blank_ex1 :
  re_sub_blank (py "A" ++ [NL; NL; NL] ++ py "B") = py "A" ++ [NL] ++ py "B".
Proof. reflexivity. Qed.

(** [a == b] on strings. *)
Fixpoint str_eqb (a b : pystr) : bool :=
  match a, b with
  | [], [] => true
  | x :: a', y :: b' => (x =? y)%N && str_eqb a' b'
  | _, _ => false
  end.

(** [hay.startswith(needle)] *)
Fixpoint startswith (hay needle : pystr) {struct needle} : bool :=
  match needle, hay with
  | [], _ => true
  | x :: n', y :: h' => (x =? y)%N && startswith h' n'
  | _ :: _, [] => false
  end.

(** [needle in hay] for two strings: a substring test. *)
Fixpoint str_contains (hay needle : pystr) : bool :=
  startswith hay needle ||
  match hay with
  | [] => false
  | _ :: h' => str_contains h' needle
  end.

(** [str(n)] for an [int]. *)
Definition str_of_int (z : Z) : pystr :=
  string_bytes (DecimalString.NilZero.string_of_int (Z.to_int z)).

(** [posixpath.join(a, b)] *)
Definition is_sep (c : N) : bool := (c =? 47)%N.

Definition path_join (a b : pystr) : pystr :=
  if match b with c :: _ => is_sep c | [] => false end then b
  else
    match rev a with
    | [] => b
    | c :: _ => if is_sep c then a ++ b else a ++ 47%N :: b
    end.

(** [base64.b64encode(data).decode('utf-8')] *)
Definition b64_char (n : N) : N :=
  (if n <? 26 then 65 + n
   else if n <? 52 then 97 + (n - 26)
   else if n <? 62 then 48 + (n - 52)
   else if n =? 62 then 43 else 47)%N.

Definition b64_sextet (n : N) (i : N) : N :=
  b64_char (N.land (N.shiftr n (6 * i)) 63).

Fixpoint b64encode (data : list Byte.byte) : pystr :=
  match data with
  | [] => []
  | [a] =>
    let n := N.shiftl (Byte.to_N a) 16 in
    [b64_sextet n 3; b64_sextet n 2; 61%N; 61%N]
  | [a; b] =>
    let n := (N.shiftl (Byte.to_N a) 16 + N.shiftl (Byte.to_N b) 8)%N in
    [b64_sextet n 3; b64_sextet n 2; b64_sextet n 1; 61%N]
  | a :: b :: c :: rest =>
    let n := (N.shiftl (Byte.to_N a) 16 + N.shiftl (Byte.to_N b) 8 + Byte.to_N c)%N in
    b64_sextet n 3 :: b64_sextet n 2 :: b64_sextet n 1 :: b64_sextet n 0
      :: b64encode rest
  end.

Example b64encode_ex : b64encode [Byte.x4d; Byte.x61] = py "TWE=".
Proof. reflexivity. Qed.

(* ===================================================================== *)
(** * Python values, exceptions and the builtins the plugin uses *)
(* ===================================================================== *)

(** What [json.loads] can return. *)
Inductive pyval :=
| PNone
| PBool (b : bool)
| PInt (z : Z)
| PFloat (f : float)
| PStr (s : pystr)
| PList (l : list pyval)
| PDict (d : gmap pystr pyval).

(** Exceptions (all of them subclasses of [Exception]).  Those of the
    collaborators (aiohttp, the platform API) carry their class name and
    text; cancellation of the running task is a [BaseException] raised by
    the host's scheduler and is outside this model. *)
Inductive exn :=
| TypeError (operation : pystr)
| KeyError (key : pystr)
| AttributeError (attr : pystr)
| ValueError
| OverflowError
| FileNotFoundError (path : pystr)
| IsADirectoryError (path : pystr)
| FileExistsError (path : pystr)
| PermissionError (path : pystr)
| External (cls msg : pystr).

Inductive result (A : Type) :=
| Ok (a : A)
| Raise (e : exn).
Arguments Ok {A} a.
Arguments Raise {A} e.

(** The text the interpreter produces for values and exceptions that the
    model does not spell out: [repr] of floats and containers, and
    [str(e)] of an exception. *)
Class PyRuntime := {
  repr_other : pyval -> pystr;
  exn_str : exn -> pystr
}.

(** [str(v)], which is also what [f"{v}"] inserts. *)
Definition py_str `{PyRuntime} (v : pyval) : pystr :=
  match v with
  | PStr s => s
  | PNone => py "None"
  | PBool true => py "True"
  | PBool false => py "False"
  | PInt z => str_of_int z
  | _ => repr_other v
  end.

(** Truth value of an object ([if v], [not v], [v and ...]). *)
Definition truthy (v : pyval) : bool :=
  match v with
  | PNone => false
  | PBool b => b
  | PInt z => negb (z =? 0)%Z
  | PFloat f => negb (PrimFloat.eqb f 0%float)
  | PStr s => negb (str_eqb s [])
  | PList l => match l with [] => false | _ => true end
  | PDict d => negb (bool_decide (d = ∅))
  end.

Definition str_truthy (s : pystr) : bool :=
  match s with [] => false | _ => true end.

(** [k in v] for a string [k]. *)
Definition py_contains (k : pystr) (v : pyval) : result bool :=
  match v with
  | PDict d => Ok (bool_decide (is_Some (d !! k)))
  | PList l =>
    Ok (existsb (fun x => match x with PStr s => str_eqb k s | _ => false end) l)
  | PStr s => Ok (str_contains s k)
  | _ => Raise (TypeError (py "in"))
  end.

(** [v[k]] for a string [k]. *)
Definition py_getitem (v : pyval) (k : pystr) : result pyval :=
  match v with
  | PDict d =>
    match d !! k with
    | Some x => Ok x
    | None => Raise (KeyError k)
    end
  | _ => Raise (TypeError (py "[]"))
  end.

(** [v.get(k, default)] *)
Definition py_get (v : pyval) (k : pystr) (default : pyval) : result pyval :=
  match v with
  | PDict d =>
    match d !! k with
    | Some x => Ok x
    | None => Ok default
    end
  | _ => Raise (AttributeError (py "get"))
  end.

(** The elements [for x in v] runs through.  A [dict] yields its keys; the
    order among them plays no role below (every key is a [str], on which
    the plugin's subscript fails whatever the key). *)
Definition py_iter (v : pyval) : result (list pyval) :=
  match v with
  | PList l => Ok l
  | PDict d => Ok (map (fun kv => PStr (fst kv)) (map_to_list d))
  | PStr s => Ok (map (fun c => PStr [c]) s)
  | _ => Raise (TypeError (py "iter"))
  end.

(** [sep.join(parts)]: every part has to be a [str]. *)
Fixpoint all_str (parts : list pyval) : result (list pystr) :=
  match parts with
  | [] => Ok []
  | PStr s :: rest =>
    match all_str rest with
    | Ok l => Ok (s :: l)
    | Raise e => Raise e
    end
  | _ :: _ => Raise (TypeError (py "join"))
  end.

Definition py_join (sep : pystr) (parts : list pyval) : result pystr :=
  match all_str parts with
  | Ok l => Ok (str_join sep l)
  | Raise e => Raise e
  end.

(** ** Numbers *)

(** [float(n)] for an [int]: correctly rounded, [OverflowError] when the
    result is not finite. *)
Definition float_of_int (z : Z) : result float :=
  match binary_normalize prec emax z 0 false with
  | S754_infinity _ => Raise OverflowError
  | x => Ok (SF2Prim x)
  end.

(** The conversion [float.__add__] applies to its other operand: a
    [float], an [int] or a [bool] (an [int] too); anything else is a
    [TypeError]. *)
Definition as_float (v : pyval) : result float :=
  match v with
  | PFloat b => Ok b
  | PInt z => float_of_int z
  | PBool b => Ok (if b then 1 else 0)%float
  | _ => Raise (TypeError (py "+"))
  end.

(** [a + v] for a float [a]. *)
Definition float_add (a : float) (v : pyval) : result float :=
  match as_float v with
  | Ok b => Ok (a + b)%float
  | Raise e => Raise e
  end.

(** [int(a)]: truncation towards zero. *)
Definition int_of_float (a : float) : result Z :=
  match Prim2SF a with
  | S754_zero _ => Ok 0%Z
  | S754_finite s m e =>
    let v := match e with
             | Zneg k => (Zpos m / 2 ^ Zpos k)%Z
             | _ => (Zpos m * 2 ^ e)%Z
             end in
    Ok (if s then (- v)%Z else v)
  | S754_infinity _ => Raise OverflowError
  | S754_nan => Raise ValueError
  end.

(** The attribute [token_expire_time] holds the [int] [0] it is created
    with, or the [float] a refresh computed. *)
Inductive pynum :=
| NInt (z : Z)
| NFloat (f : float).

(** [a < n] for a float [a]; against an [int] Python compares the exact
    values. *)
Definition float_lt (a : float) (n : pynum) : bool :=
  match n with
  | NFloat b => PrimFloat.ltb a b
  | NInt z =>
    match Prim2SF a with
    | S754_zero _ => (0 <? z)%Z
    | S754_finite s m e =>
      let v := if s then Zneg m else Zpos m in
      match e with
      | Zneg k => (v <? z * 2 ^ Zpos k)%Z
      | _ => (v * 2 ^ e <? z)%Z
      end
    | S754_infinity s => s
    | S754_nan => false
    end
  end.

Example float_of_int_ex : float_of_int 2592000 = Ok 2592000%float.
Proof. reflexivity. Qed.

Example int_of_float_ex : int_of_float 1700000000.75%float = Ok 1700000000%Z.
Proof. reflexivity. Qed.

Example float_lt_ex :
  float_lt 0.5%float (NInt 1) = true /\ float_lt 1.5%float (NInt 1) = false.
Proof. split; reflexivity. Qed.

(* ===================================================================== *)
(** * The world the plugin runs in *)
(* ===================================================================== *)

(** The file system is a flat map from paths to nodes: a file can be
    written at any path that is not a directory, whether or not the
    directories above it are in the map. *)
Inductive node :=
| File (data : list Byte.byte)
| Dir.

(** [session.post(url, data=params)] *)
Record request := { req_url : pystr; req_data : list (pystr * pystr) }.

Inductive level := INFO | WARNING | ERROR.

(** Observable effects, newest first in [trace]. *)
Inductive effect :=
| EPost (r : request)                     (* an outbound HTTP request *)
| ELog (l : level) (msg : pystr)          (* logger.info / warning / error *)
| EReply (msg : pystr)                    (* yield event.plain_result(msg) *)
| ESpawn (paths : list (option pystr))    (* asyncio.create_task(self.cleanup_files(paths)) *)
| ESleep (seconds : Z)                    (* await asyncio.sleep(seconds) *)
| EUnlink (path : pystr).                 (* os.unlink(path) was called *)

(** The attributes of an [OCRPlugin] instance. *)
Record OCRPlugin := {
  temp_dir : pystr;
  access_token : pyval;
  token_expire_time : pynum;
  api_key : pystr;
  secret_key : pystr;
  token_url : pystr;
  ocr_url : pystr
}.

(** What the plugin does not control: the readings of the clock, in the
    order they are taken; what the [n]-th request comes back with (the
    parsed JSON body, or the exception of the transport or of the JSON
    decoder); the paths whose directory entry cannot be removed. *)
Record Env := {
  clock : nat -> float;
  net : nat -> request -> result pyval;
  undeletable : pystr -> bool
}.

Record World := {
  self : OCRPlugin;
  env : Env;
  ticks : nat;
  fs : gmap pystr node;
  trace : list effect
}.

Definition set_self (s : OCRPlugin) (w : World) : World :=
  {| self := s; env := env w; ticks := ticks w; fs := fs w; trace := trace w |}.

Definition set_ticks (n : nat) (w : World) : World :=
  {| self := self w; env := env w; ticks := n; fs := fs w; trace := trace w |}.

Definition set_fs (m : gmap pystr node) (w : World) : World :=
  {| self := self w; env := env w; ticks := ticks w; fs := m; trace := trace w |}.

Definition emit (e : effect) (w : World) : World :=
  {| self := self w; env := env w; ticks := ticks w; fs := fs w;
     trace := e :: trace w |}.

(** The requests sent so far, oldest first. *)
Definition requests (w : World) : list request :=
  rev (omap (fun e => match e with EPost r => Some r | _ => None end) (trace w)).

Definition replies (w : World) : list pystr :=
  rev (omap (fun e => match e with EReply m => Some m | _ => None end) (trace w)).

Definition spawned (w : World) : list (list (option pystr)) :=
  rev (omap (fun e => match e with ESpawn p => Some p | _ => None end) (trace w)).

(** ** Computations: state and exceptions

    An exception leaves the state as it was when it was raised; nothing is
    rolled back. *)
Definition M (A : Type) : Type := World -> result A * World.

#[global] Instance M_ret : MRet M := fun A a w => (Ok a, w).

#[global] Instance M_bind : MBind M := fun A B k m w =>
  match m w with
  | (Ok a, w') => k a w'
  | (Raise e, w') => (Raise e, w')
  end.

Definition lift {A} (r : result A) : M A := fun w => (r, w).

(** [try: body except Exception as e: handler e] *)
Definition try_except {A} (body : M A) (handler : exn -> M A) : M A :=
  fun w =>
    match body w with
    | (Ok a, w') => (Ok a, w')
    | (Raise e, w') => handler e w'
    end.

Definition get_self : M OCRPlugin := fun w => (Ok (self w), w).

Definition set_access_token (v : pyval) : M unit := fun w =>
  let s := self w in
  (Ok tt, set_self {| temp_dir := temp_dir s; access_token := v;
                      token_expire_time := token_expire_time s;
                      api_key := api_key s; secret_key := secret_key s;
                      token_url := token_url s; ocr_url := ocr_url s |} w).

Definition set_token_expire_time (t : pynum) : M unit := fun w =>
  let s := self w in
  (Ok tt, set_self {| temp_dir := temp_dir s; access_token := access_token s;
                      token_expire_time := t;
                      api_key := api_key s; secret_key := secret_key s;
                      token_url := token_url s; ocr_url := ocr_url s |} w).

(** [time.time()] *)
Definition time_time : M float := fun w =>
  (Ok (clock (env w) (ticks w)), set_ticks (S (ticks w)) w).

(** One request and the decoding of its JSON body. *)
Definition post (url : pystr) (data : list (pystr * pystr)) : M pyval := fun w =>
  let r := {| req_url := url; req_data := data |} in
  (net (env w) (length (requests w)) r, emit (EPost r) w).

Definition log (l : level) (msg : pystr) : M unit := fun w =>
  (Ok tt, emit (ELog l msg) w).

Definition yield_reply (msg : pystr) : M unit := fun w =>
  (Ok tt, emit (EReply msg) w).

Definition create_task (paths : list (option pystr)) : M unit := fun w =>
  (Ok tt, emit (ESpawn paths) w).

Definition sleep (seconds : Z) : M unit := fun w =>
  (Ok tt, emit (ESleep seconds) w).

(** [open(path, 'rb').read()] *)
Definition open_read (path : pystr) : M (list Byte.byte) := fun w =>
  match fs w !! path with
  | Some (File data) => (Ok data, w)
  | Some Dir => (Raise (IsADirectoryError path), w)
  | None => (Raise (FileNotFoundError path), w)
  end.

(** [open(path, 'wb').write(data)] *)
Definition open_write (path : pystr) (data : list Byte.byte) : M unit := fun w =>
  match fs w !! path with
  | Some Dir => (Raise (IsADirectoryError path), w)
  | _ => (Ok tt, set_fs (<[path := File data]> (fs w)) w)
  end.

(** [os.path.exists(path)] *)
Definition path_exists (path : pystr) : M bool := fun w =>
  (Ok (bool_decide (is_Some (fs w !! path))), w).

(** [os.unlink(path)] *)
Definition unlink (path : pystr) : M unit := fun w =>
  let w := emit (EUnlink path) w in
  match fs w !! path with
  | None => (Raise (FileNotFoundError path), w)
  | Some Dir => (Raise (IsADirectoryError path), w)
  | Some (File _) =>
    if undeletable (env w) path then (Raise (PermissionError path), w)
    else (Ok tt, set_fs (delete path (fs w)) w)
  end.

(** [os.makedirs(path, exist_ok=True)] *)
Definition makedirs (path : pystr) : M unit := fun w =>
  match fs w !! path with
  | Some (File _) => (Raise (FileExistsError path), w)
  | Some Dir => (Ok tt, w)
  | None => (Ok tt, set_fs (<[path := Dir]> (fs w)) w)
  end.

(** A call into the platform that may touch the file system (it may
    download the attachment to a file of its own). *)
Definition platform_call {A} (f : gmap pystr node -> result A * gmap pystr node)
  : M A := fun w =>
  let '(r, m) := f (fs w) in (r, set_fs m w).

(** ** The triggering event *)

Record Image := {
  file : pystr;
  convert_to_file_path : gmap pystr node -> result pystr * gmap pystr node
}.

(** A message component is an [Image] or something else. *)
Inductive component :=
| CImage (img : Image)
| COther.

Record AstrMessageEvent := {
  get_messages : list component;
  (** [event.bot.api.call_action("get_image", file_id=...)] *)
  get_image : pystr -> gmap pystr node -> result pyval * gmap pystr node
}.

Definition as_image (m : component) : option Image :=
  match m with CImage i => Some i | COther => None end.

(* ===================================================================== *)
(** * The methods of [OCRPlugin] *)
(* ===================================================================== *)

Section Plugin.
Context `{PyRuntime}.

(** The string-valued configuration the host hands to [__init__]. *)
Definition config_get (config : gmap pystr pystr) (k default : pystr) : pystr :=
  match config !! k with
  | Some v => v
  | None => default
  end.

(** [__init__]: [tmp] is [tempfile.gettempdir()]. *)
Definition __init__ (tmp : pystr) (config : gmap pystr pystr) : M unit :=
  let dir := path_join tmp (py "astrbot_ocr") in
  makedirs dir;;
  let s := {| temp_dir := dir;
              access_token := PNone;
              token_expire_time := NInt 0;
              api_key := config_get config (py "api_key") [];
              secret_key := config_get config (py "secret_key") [];
              token_url := config_get config (py "token_url")
                             (py "https://aip.baidubce.com/oauth/2.0/token");
              ocr_url := config_get config (py "ocr_url")
                           (py "https://aip.baidubce.com/rest/2.0/ocr/v1/accurate_basic") |} in
  (fun w => (Ok tt, set_self s w));;
  if negb (str_truthy (api_key s)) || negb (str_truthy (secret_key s))
  then log WARNING (py "百度OCR API密钥未配置，请检查配置文件！")
  else mret tt.

(** The form of the token request. *)
Definition token_params (s : OCRPlugin) : list (pystr * pystr) :=
  [(py "grant_type", py "client_credentials");
   (py "client_id", api_key s);
   (py "client_secret", secret_key s)].

(** The body of the [try] of [get_access_token]: the exchange. *)
Definition request_token (s : OCRPlugin) : M pyval :=
  result ← post (token_url s) (token_params s);
  has ← lift (py_contains (py "access_token") result);
  if has : bool then
    tok ← lift (py_getitem result (py "access_token"));
    set_access_token tok;;
    now ← time_time;
    expires_in ← lift (py_getitem result (py "expires_in"));
    t ← lift (float_add now expires_in);
    set_token_expire_time (NFloat (t - 300));;
    s' ← get_self;
    mret (access_token s')
  else
    error_msg ← lift (py_get result (py "error_description")
                        (PStr (py "未知错误")));
    log ERROR (py "获取百度API token失败: " ++ py_str error_msg);;
    mret PNone.

(** [get_access_token] *)
Definition get_access_token : M pyval :=
  s ← get_self;
  if negb (str_truthy (api_key s)) || negb (str_truthy (secret_key s))
  then mret PNone
  else
    fresh ← (if truthy (access_token s)
             then now ← time_time; mret (float_lt now (token_expire_time s))
             else mret false);
    if fresh : bool then mret (access_token s)
    else
      try_except
        (request_token s)
        (fun e =>
           log ERROR (py "获取百度API token异常: " ++ exn_str e);;
           mret PNone).

(** [initialize] *)
Definition initialize : M unit :=
  log INFO (py "百度OCR文字识别");;
  s ← get_self;
  if str_truthy (api_key s) && str_truthy (secret_key s)
  then get_access_token;; mret tt
  else mret tt.

Definition find_image (messages : list component) (file_id : pystr) : option Image :=
  head (List.filter (fun i => str_eqb (file i) file_id) (omap as_image messages)).

(** [open(file_path, "rb")] on what the platform answered: a path.  (An
    [int] would name a file descriptor; the model has none.) *)
Definition as_path (v : pyval) : result pystr :=
  match v with
  | PStr s => Ok s
  | _ => Raise (TypeError (py "open"))
  end.

(** The two ways [download_image] gets at the bytes: the path the
    attachment converts to, if that file exists, else the path the
    platform's [get_image] answers.  The result is the path read (the
    original) and the bytes; [None] stands for the early
    [return ("", None)]. *)
Definition read_attachment (event : AstrMessageEvent) (file_id : pystr)
    (image_obj : Image) : M (option (pystr * list Byte.byte)) :=
  file_path ← platform_call (convert_to_file_path image_obj);
  direct ← (if str_truthy file_path then path_exists file_path else mret false);
  if direct : bool then
    data ← open_read file_path;
    mret (Some (file_path, data))
  else
    result ← platform_call (get_image event file_id);
    file_path ← lift (py_get result (py "file") PNone);
    if negb (truthy file_path) then mret None
    else
      p ← lift (as_path file_path);
      data ← open_read p;
      mret (Some (p, data)).

(** The plugin's own copy, named after the time. *)
Definition save_copy (original_path : pystr) (data : list Byte.byte)
  : M (pystr * option pystr) :=
  s ← get_self;
  now ← time_time;
  n ← lift (int_of_float now);
  let temp_path :=
    path_join (temp_dir s) (py "ocr_" ++ str_of_int n ++ py ".jpg") in
  open_write temp_path data;;
  mret (temp_path, Some original_path).

(** The body of the [try] of [download_image]. *)
Definition fetch (event : AstrMessageEvent) (file_id : pystr)
  : M (pystr * option pystr) :=
  match find_image (get_messages event) file_id with
  | None => mret ([], None)
  | Some image_obj =>
    got ← read_attachment event file_id image_obj;
    match got with
    | None => mret ([], None)
    | Some (original_path, data) => save_copy original_path data
    end
  end.

(** [download_image]: the pair (plugin's temporary copy, platform's
    original); [""] stands for no local path. *)
Definition download_image (event : AstrMessageEvent) (file_id : pystr)
  : M (pystr * option pystr) :=
  try_except
    (fetch event file_id)
    (fun e =>
       log ERROR (py "图片下载失败: " ++ exn_str e);;
       mret ([], None)).

(** The form of the recognition request. *)
Definition ocr_params (base64_data : pystr) : list (pystr * pystr) :=
  [(py "image", base64_data);
   (py "language_type", py "CHN_ENG");
   (py "detect_direction", py "true");
   (py "paragraph", py "true");
   (py "probability", py "false")].

(** [[words['words'] for words in l]] *)
Fixpoint words_of (l : list pyval) : result (list pyval) :=
  match l with
  | [] => Ok []
  | words :: rest =>
    match py_getitem words (py "words") with
    | Ok x =>
      match words_of rest with
      | Ok xs => Ok (x :: xs)
      | Raise e => Raise e
      end
    | Raise e => Raise e
    end
  end.

(** The body of the [try] of [_perform_ocr]. *)
Definition recognise (image_path : pystr) : M pystr :=
  token ← get_access_token;
  if negb (truthy token) then mret (py "OCR服务认证失败")
  else
    image_data ← open_read image_path;
    let base64_data := b64encode image_data in
    let params := ocr_params base64_data in
    s ← get_self;
    let url := ocr_url s ++ py "?access_token=" ++ py_str token in
    result ← post url params;
    has ← lift (py_contains (py "error_code") result);
    if has : bool then
      error_msg ← lift (py_get result (py "error_msg") (PStr (py "未知错误")));
      code ← lift (py_getitem result (py "error_code"));
      log ERROR (py "百度OCR API错误: " ++ py_str error_msg
                 ++ py " (错误码: " ++ py_str code ++ py ")");;
      mret (py "OCR识别失败: " ++ py_str error_msg)
    else
      words_result ← lift (py_get result (py "words_result") (PList []));
      items ← lift (py_iter words_result);
      text_list ← lift (words_of items);
      text ← lift (py_join [NL] text_list);
      let text := re_sub_blank text in
      mret (strip text).

(** [_perform_ocr] *)
Definition _perform_ocr (image_path : pystr) : M pystr :=
  try_except
    (recognise image_path)
    (fun e =>
       log ERROR (py "OCR识别失败: " ++ exn_str e);;
       mret []).

(** The body of the loop of [cleanup_files]. *)
Definition cleanup_one (path : option pystr) : M unit :=
  match path with
  | None => mret tt
  | Some p =>
    ex ← (if str_truthy p then path_exists p else mret false);
    if ex : bool then
      try_except
        (unlink p;;
         log INFO (py "已成功删除文件: " ++ p))
        (fun e =>
           log WARNING (py "清理临时文件失败 " ++ p ++ py ": " ++ exn_str e))
    else mret tt
  end.

Fixpoint cleanup_loop (paths : list (option pystr)) : M unit :=
  match paths with
  | [] => mret tt
  | path :: rest => cleanup_one path;; cleanup_loop rest
  end.

(** [cleanup_files]: an element of [paths] is a path or [None]. *)
Definition cleanup_files (paths : list (option pystr)) : M unit :=
  sleep 3;;
  cleanup_loop paths.

(** [ocr_command].  The recognition step, [self._perform_ocr], is a
    parameter, so that a statement can say that a run does not call it. *)
Definition ocr_command_with (recognize : pystr -> M pystr)
    (event : AstrMessageEvent) : M unit :=
  let messages := get_messages event in
  let images := omap as_image messages in
  match images with
  | [] => yield_reply (py "请发送一张包含文字的图片")
  | first :: _ =>
    try_except
      (let file_id := file first in
       '(temp_path, original_path) ← download_image event file_id;
       if negb (str_truthy temp_path) then yield_reply (py "图片下载失败")
       else
         text ← recognize temp_path;
         e1 ← (if str_truthy temp_path then path_exists temp_path else mret false);
         let files_to_delete := if e1 : bool then [Some temp_path] else [] in
         e2 ← (match original_path with
               | Some p => if str_truthy p then path_exists p else mret false
               | None => mret false
               end);
         let files_to_delete :=
           if e2 : bool then files_to_delete ++ [original_path] else files_to_delete in
         (match files_to_delete with
          | [] => mret tt
          | _ => create_task files_to_delete
          end);;
         if negb (str_truthy (strip text))
         then yield_reply (py "未识别到文字，请检查图片清晰度")
         else yield_reply (py "图片中的文字内容：" ++ NL :: text))
      (fun e =>
         log ERROR (py "OCR命令处理失败: " ++ exn_str e);;
         yield_reply (py "OCR处理失败: " ++ exn_str e))
  end.

Definition ocr_command : AstrMessageEvent -> M unit :=
  ocr_command_with _perform_ocr.

(** [terminate] *)
Definition terminate : M unit := log INFO (py "OCR插件已卸载").

End Plugin.

(* ===================================================================== *)
(** * The normalisation of the recognised text, in the words of the spec *)
(* ===================================================================== *)

(** [text.split('\n')]: the lines of a text. *)
Fixpoint split_lines (s : pystr) : list pystr :=
  match s with
  | [] => [[]]
  | c :: s' =>
    if (c =? NL)%N then [] :: split_lines s'
    else
      match split_lines s' with
      | l :: ls => (c :: l) :: ls
      | [] => [[c]]
      end
  end.

(** A blank line holds white space only. *)
Definition blank (l : pystr) : bool := forallb isspace l.

(** Among the lines that follow the first one, the blank ones are dropped,
    the last line apart: each run of blank lines between two lines leaves
    the single newline that separates those two. *)
Fixpoint drop_blank_between (ls : list pystr) : list pystr :=
  match ls with
  | [] => []
  | [l] => [l]
  | l :: rest =>
    if blank l then drop_blank_between rest else l :: drop_blank_between rest
  end.

(** The text with every run of blank lines collapsed. *)
Definition collapse_blank_lines (text : pystr) : pystr :=
  match split_lines text with
  | [] => []
  | l :: ls => str_join [NL] (l :: drop_blank_between ls)
  end.

Definition no_newline (l : pystr) : Prop := Forall (fun c => c ≠ NL) l.

(** [out] is [text] without the white space at its two ends: what is cut
    off in front and behind is white space, and [out] neither starts nor
    ends with white space. *)
Definition trims_white_space (text out : pystr) : Prop :=
  exists pre post,
    text = pre ++ out ++ post /\ blank pre = true /\ blank post = true /\
    (forall c rest, out = c :: rest -> isspace c = false) /\
    (forall c rest, rev out = c :: rest -> isspace c = false).


(** Where the scan resumes after a newline: behind the match of
    [\s*\n], if there is one. *)
Definition after_newline (s : pystr) : pystr :=
  match match_blank_tail s with
  | Some r => r
  | None => s
  end.


(* ===================================================================== *)
(** * Vocabulary of the statements *)
(* ===================================================================== *)

(** Both keys are set. *)
Definition configured (s : OCRPlugin) : Prop :=
  api_key s ≠ [] /\ secret_key s ≠ [].

(** A token is cached: [self.access_token] holds a true value. *)
Definition cached (w : World) : Prop :=
  truthy (access_token (self w)) = true.

(** The current time, as the next reading of the clock gives it. *)
Definition now (w : World) : float := clock (env w) (ticks w).

(** The cached token is not expired. *)
Definition fresh (w : World) : Prop :=
  float_lt (now w) (token_expire_time (self w)) = true.

(** [get_access_token] goes to the network: nothing is cached, or what is
    cached has expired. *)
Definition stale (w : World) : Prop :=
  truthy (access_token (self w)) = false \/
  float_lt (now w) (token_expire_time (self w)) = false.

(** The world after the test of the cache: the clock was read if a token
    was there to be tested. *)
Definition checked (w : World) : World :=
  if truthy (access_token (self w)) then set_ticks (S (ticks w)) w else w.

Definition token_request (s : OCRPlugin) : request :=
  {| req_url := token_url s; req_data := token_params s |}.

(** What the token endpoint answers to the next request. *)
Definition token_reply (w : World) : result pyval :=
  net (env w) (length (requests w)) (token_request (self w)).

(** The response is a JSON object with a member [k]. *)
Definition member (k : pystr) (r : pyval) : option pyval :=
  match r with
  | PDict d => d !! k
  | _ => None
  end.

(** A computation that never raises. *)
Definition never_raises {A} (m : M A) : Prop :=
  forall w, exists a, fst (m w) = Ok a.

(** A computation that keeps a property of the world. *)
Definition preserves {A} (P : World -> Prop) (m : M A) : Prop :=
  forall w, P w -> P (snd (m w)).

(** The invariant of the plugin object: a token is only ever cached by an
    instance whose keys are set. *)
Definition plugin_inv (s : OCRPlugin) : Prop :=
  truthy (access_token s) = true -> configured s.

(** What every primitive but the two setters keeps: the plugin object. *)
Definition on_self (Q : OCRPlugin -> Prop) (w : World) : Prop := Q (self w).

(** What every primitive but those of the file system keeps: the files. *)
Definition on_fs (Q : gmap pystr node -> Prop) (w : World) : Prop := Q (fs w).

(** What only [yield] and [create_task] change: the replies and the
    tasks handed to the event loop. *)
Definition on_chat (Q : list pystr -> list (list (option pystr)) -> Prop)
    (w : World) : Prop := Q (replies w) (spawned w).

(** The trace only grows. *)
Definition traced (e : effect) (w : World) : Prop := In e (trace w).


Section Statements.
Context `{PyRuntime}.

(** The recognition request for a token and the bytes of an image. *)
Definition ocr_request (s : OCRPlugin) (token : pyval) (data : list Byte.byte)
  : request :=
  {| req_url := ocr_url s ++ py "?access_token=" ++ py_str token;
     req_data := ocr_params (b64encode data) |}.

(** What the recognition endpoint answers to the next request. *)
Definition ocr_reply (w : World) (token : pyval) (data : list Byte.byte)
  : result pyval :=
  net (env w) (length (requests w)) (ocr_request (self w) token data).

(** The sentinel [_perform_ocr] returns for a provider error. *)
Definition provider_error (error_msg : pyval) : pystr :=
  py "OCR识别失败: " ++ py_str error_msg.

(** The reply [ocr_command] selects for a recognised text. *)
Definition reply_for (text : pystr) : pystr :=
  if str_truthy (strip text)
  then py "图片中的文字内容：" ++ NL :: text
  else py "未识别到文字，请检查图片清晰度".

(** A path that is set and exists. *)
Definition existing (w : World) (p : option pystr) : bool :=
  match p with
  | Some p => str_truthy p && bool_decide (is_Some (fs w !! p))
  | None => false
  end.

(** The artifacts [ocr_command] hands to the cleanup. *)
Definition files_to_delete (w : World) (temp_path : pystr)
    (original_path : option pystr) : list (option pystr) :=
  List.filter (existing w) [Some temp_path; original_path].

Definition schedule (files : list (option pystr)) (w : World) : World :=
  match files with
  | [] => w
  | _ => emit (ESpawn files) w
  end.

(** The calls the host makes on a plugin object. *)
Inductive call :=
| Call_initialize
| Call_get_access_token
| Call_download_image (event : AstrMessageEvent) (file_id : pystr)
| Call_perform_ocr (image_path : pystr)
| Call_cleanup_files (paths : list (option pystr))
| Call_ocr_command (event : AstrMessageEvent)
| Call_terminate.

Definition run (c : call) (w : World) : World :=
  match c with
  | Call_initialize => snd (initialize w)
  | Call_get_access_token => snd (get_access_token w)
  | Call_download_image event file_id => snd (download_image event file_id w)
  | Call_perform_ocr image_path => snd (_perform_ocr image_path w)
  | Call_cleanup_files paths => snd (cleanup_files paths w)
  | Call_ocr_command event => snd (ocr_command event w)
  | Call_terminate => snd (terminate w)
  end.

(** The states a plugin object can be in: it is built by [__init__], the
    host calls its methods, and meanwhile files change and time passes. *)
Inductive reachable : World -> Prop :=
| reachable_init tmp config w0 w :
    __init__ tmp config w0 = (Ok tt, w) -> reachable w
| reachable_call c w :
    reachable w -> reachable (run c w)
| reachable_elsewhere m n w :
    reachable w -> reachable (set_fs m (set_ticks n w)).

(** The two failures [_perform_ocr] detects itself, in a world [w1]. *)
Inductive detected_failure (temp : pystr) (w1 : World) : pystr -> Prop :=
| no_token tok w2 :
    get_access_token w1 = (Ok tok, w2) -> truthy tok = false ->
    detected_failure temp w1 (py "OCR服务认证失败")
| error_code tok w2 data d code :
    get_access_token w1 = (Ok tok, w2) -> truthy tok = true ->
    fs w2 !! temp = Some (File data) ->
    ocr_reply w2 tok data = Ok (PDict d) ->
    d !! py "error_code" = Some code ->
    detected_failure temp w1
      (provider_error (default (PStr (py "未知错误")) (d !! py "error_msg"))).

End Statements.

(* ===================================================================== *)
(** * Properties of the text normalisation *)
(* ===================================================================== *)

Lemma re_sub_blank_nil : re_sub_blank [] = [].
Proof. reflexivity. Qed.

Lemma re_sub_blank_other c s :
  c ≠ NL -> re_sub_blank (c :: s) = c :: re_sub_blank s.
Proof.
  intros Hc. simp re_sub_blank.
  destruct (N.eqb_spec c NL) as [->|_]; [done|]. reflexivity.
Qed.

Lemma re_sub_blank_newline s :
  re_sub_blank (NL :: s) = NL :: re_sub_blank (after_newline s).
Proof.
  simp re_sub_blank. unfold after_newline.
  destruct (inspect (match_blank_tail s)) as [[r|] Hr]; simpl; rewrite Hr; reflexivity.
Qed.

Ltac nl_cons :=
  repeat match goal with
         | |- context [[NL] ++ ?x] => change ([NL] ++ x) with (NL :: x)
         end.

Lemma isspace_NL : isspace NL = true.
Proof. reflexivity. Qed.

Lemma re_sub_blank_line l x :
  no_newline l -> re_sub_blank (l ++ x) = l ++ re_sub_blank x.
Proof.
  induction 1 as [|c l Hc _ IH]; [reflexivity|].
  simpl. rewrite re_sub_blank_other by done. by rewrite IH.
Qed.

Lemma match_blank_tail_newline s :
  match_blank_tail (NL :: s) = Some (after_newline s).
Proof.
  unfold after_newline. simpl. by destruct (match_blank_tail s).
Qed.

Lemma match_blank_tail_line l x :
  no_newline l ->
  match_blank_tail (l ++ x) = if blank l then match_blank_tail x else None.
Proof.
  induction 1 as [|c l Hc _ IH]; [reflexivity|].
  simpl. destruct (isspace c); simpl; [|done].
  rewrite IH. destruct (blank l); [|].
  - destruct (match_blank_tail x); [done|].
    by destruct (N.eqb_spec c NL).
  - by destruct (N.eqb_spec c NL).
Qed.

Lemma str_join_cons sep x rest :
  rest ≠ [] -> str_join sep (x :: rest) = x ++ sep ++ str_join sep rest.
Proof. by destruct rest. Qed.

Lemma drop_blank_between_nil ls : drop_blank_between ls = [] -> ls = [].
Proof.
  induction ls as [|l [|l' ls] IH]; simpl; try done.
  destruct (blank l); [|done]. intros E. by specialize (IH E).
Qed.

(** After a newline, the scan resumes at the first line that is not blank
    or is the last one. *)
Lemma re_sub_blank_after ls :
  ls ≠ [] -> Forall no_newline ls ->
  re_sub_blank (after_newline (str_join [NL] ls))
  = str_join [NL] (drop_blank_between ls).
Proof.
  induction ls as [|l ls IH]; [done|]. intros _ Hls.
  apply Forall_cons in Hls as [Hl Hls].
  destruct ls as [|l' ls].
  - simpl. unfold after_newline.
    rewrite <- (app_nil_r l) at 1 2. rewrite match_blank_tail_line by done.
    simpl. destruct (blank l); rewrite app_nil_r;
      rewrite <- (app_nil_r l) at 1; by rewrite re_sub_blank_line, app_nil_r.
  - specialize (IH ltac:(done) Hls).
    rewrite str_join_cons by done.
    change (drop_blank_between (l :: l' :: ls)) with
      (if blank l then drop_blank_between (l' :: ls)
       else l :: drop_blank_between (l' :: ls)).
    unfold after_newline at 1. rewrite match_blank_tail_line by done.
    nl_cons. rewrite match_blank_tail_newline.
    destruct (blank l); [exact IH|].
    cbv iota. rewrite re_sub_blank_line by done. nl_cons.
    rewrite re_sub_blank_newline, IH.
    rewrite str_join_cons; [done|].
    intros E. by apply drop_blank_between_nil in E.
Qed.

Lemma re_sub_blank_lines l ls :
  no_newline l -> Forall no_newline ls ->
  re_sub_blank (str_join [NL] (l :: ls))
  = str_join [NL] (l :: drop_blank_between ls).
Proof.
  intros Hl Hls. destruct ls as [|l' ls].
  - simpl. rewrite <- (app_nil_r l) at 1. by rewrite re_sub_blank_line, app_nil_r.
  - rewrite str_join_cons by done. rewrite re_sub_blank_line by done.
    nl_cons. rewrite re_sub_blank_newline, re_sub_blank_after by done.
    rewrite (str_join_cons _ l); [done|].
    intros E. by apply drop_blank_between_nil in E.
Qed.

Lemma split_lines_spec s :
  exists l ls, split_lines s = l :: ls /\ no_newline l /\ Forall no_newline ls
               /\ str_join [NL] (l :: ls) = s.
Proof.
  induction s as [|c s (l & ls & E & Hl & Hls & J)].
  - exists [], []. split_and!; [done|constructor|constructor|done].
  - simpl. destruct (N.eqb_spec c NL) as [->|Hc].
    + exists [], (l :: ls). rewrite E.
      split_and!; [done|constructor|by constructor|].
      by rewrite J.
    + rewrite E. exists (c :: l), ls.
      split_and!; [done|by constructor|done|].
      destruct ls; simpl in *; by rewrite J.
Qed.

Theorem re_sub_blank_collapse text :
  re_sub_blank text = collapse_blank_lines text.
Proof.
  unfold collapse_blank_lines.
  destruct (split_lines_spec text) as (l & ls & -> & Hl & Hls & J).
  rewrite <- J at 1. by apply re_sub_blank_lines.
Qed.

(** ** [strip] trims the white space at both ends *)

Lemma blank_rev s : blank (rev s) = blank s.
Proof.
  unfold blank. induction s as [|c s IH]; [done|]. simpl.
  rewrite forallb_app, IH. simpl. rewrite andb_true_r. apply andb_comm.
Qed.

Lemma lstrip_split s :
  exists pre,
    s = pre ++ lstrip s /\ blank pre = true /\
    (forall c rest, lstrip s = c :: rest -> isspace c = false).
Proof.
  induction s as [|c s (pre & E & Hpre & Hhead)].
  - by exists [].
  - simpl. destruct (isspace c) eqn:Hc.
    + exists (c :: pre). split_and!; [by rewrite E at 1| |done].
      unfold blank in *. simpl. by rewrite Hc.
    + exists []. split_and!; [done|done|]. by intros ? ? [= <- _].
Qed.

Lemma rstrip_split s :
  exists post,
    s = rstrip s ++ post /\ blank post = true /\
    (forall c rest, rev (rstrip s) = c :: rest -> isspace c = false).
Proof.
  unfold rstrip. destruct (lstrip_split (rev s)) as (pre & E & Hpre & Hhead).
  exists (rev pre). rewrite rev_involutive. split_and!; [|by rewrite blank_rev|done].
  rewrite <- rev_app_distr, <- E. by rewrite rev_involutive.
Qed.

Lemma strip_trims s : trims_white_space s (strip s).
Proof.
  unfold strip.
  destruct (lstrip_split s) as (pre & E & Hpre & Hhead).
  destruct (rstrip_split (lstrip s)) as (post & E' & Hpost & Hlast).
  exists pre, post. split_and!; try done.
  - by rewrite <- E', <- E.
  - intros c rest Hc. apply (Hhead c (rest ++ post)).
    by rewrite E', Hc.
Qed.

(** What [trims_white_space] describes is one text. *)
Lemma blank_app a b : blank (a ++ b) = blank a && blank b.
Proof. apply forallb_app. Qed.

Lemma trims_blank text :
  blank text = true -> forall out, trims_white_space text out -> out = [].
Proof.
  intros Hb out (pre & post & -> & _ & _ & Hhead & _).
  destruct out as [|c rest]; [done|].
  rewrite !blank_app in Hb. apply andb_true_iff in Hb as [_ Hb].
  apply andb_true_iff in Hb as [Hb _]. unfold blank in Hb. simpl in Hb.
  by rewrite (Hhead c rest eq_refl) in Hb.
Qed.

Lemma trims_front pre out post pre' out' post' c rest c' rest' :
  pre ++ out ++ post = pre' ++ out' ++ post' ->
  blank pre = true -> blank pre' = true ->
  out = c :: rest -> isspace c = false ->
  out' = c' :: rest' -> isspace c' = false ->
  pre = pre'.
Proof.
  intros E Hpre Hpre' -> Hc -> Hc'. revert pre' E Hpre'.
  induction pre as [|x pre IH]; intros [|y pre'] E Hpre'; simpl in *.
  - done.
  - injection E as -> _. unfold blank in Hpre'. simpl in Hpre'.
    by rewrite Hc in Hpre'.
  - injection E as -> _. unfold blank in Hpre. simpl in Hpre.
    by rewrite Hc' in Hpre.
  - injection E as -> E. f_equal. apply IH; [|done|].
    + unfold blank in *. simpl in Hpre. by apply andb_true_iff in Hpre as [_ ?].
    + unfold blank in *. simpl in Hpre'. by apply andb_true_iff in Hpre' as [_ ?].
Qed.

Lemma trims_unique text out out' :
  trims_white_space text out -> trims_white_space text out' -> out = out'.
Proof.
  intros Ho Ho'.
  destruct out as [|c rest] eqn:Eo.
  { destruct Ho as (pre & post & -> & Hpre & Hpost & _).
    symmetry. apply (trims_blank (pre ++ [] ++ post)); [|done].
    by rewrite !blank_app, Hpre, Hpost. }
  destruct out' as [|c' rest'] eqn:Eo'.
  { destruct Ho' as (pre & post & -> & Hpre & Hpost & _).
    apply (trims_blank (pre ++ [] ++ post)); [|done].
    by rewrite !blank_app, Hpre, Hpost. }
  rewrite <- Eo, <- Eo' in *.
  destruct Ho as (pre & post & E & Hpre & Hpost & Hhead & Hlast).
  destruct Ho' as (pre' & post' & E' & Hpre' & Hpost' & Hhead' & Hlast').
  rewrite E in E'.
  assert (pre = pre') as <-.
  { eapply trims_front; eauto. }
  apply app_inv_head in E'.
  assert (rev post = rev post') as Hp.
  { destruct (rev out) as [|d drest] eqn:Er.
    { apply (f_equal (@rev N)) in Er. rewrite rev_involutive in Er.
      rewrite Er in Eo. done. }
    destruct (rev out') as [|d' drest'] eqn:Er'.
    { apply (f_equal (@rev N)) in Er'. rewrite rev_involutive in Er'.
      rewrite Er' in Eo'. done. }
    apply (f_equal (@rev N)) in E'. rewrite !rev_app_distr in E'.
    apply (trims_front (rev post) (rev out) [] (rev post') (rev out') []
             d drest d' drest'); try done.
    - by rewrite !app_nil_r.
    - by rewrite blank_rev.
    - by rewrite blank_rev.
    - by apply (Hlast d drest).
    - by apply (Hlast' d' drest'). }
  apply (f_equal (@rev N)) in Hp. rewrite !rev_involutive in Hp. subst post'.
  by apply app_inv_tail in E'.
Qed.

(* ===================================================================== *)
(** * Reasoning about computations *)
(* ===================================================================== *)

Lemma run_bind {A B} (m : M A) (k : A -> M B) w :
  (m ≫= k) w = match m w with
               | (Ok a, w') => k a w'
               | (Raise e, w') => (Raise e, w')
               end.
Proof. reflexivity. Qed.

Lemma run_bind_ok {A B} (m : M A) (k : A -> M B) w a w' :
  m w = (Ok a, w') -> (m ≫= k) w = k a w'.
Proof. intros E. by rewrite run_bind, E. Qed.

Lemma run_bind_raise {A B} (m : M A) (k : A -> M B) w e w' :
  m w = (Raise e, w') -> (m ≫= k) w = (Raise e, w').
Proof. intros E. by rewrite run_bind, E. Qed.

Lemma run_try_ok {A} (body : M A) handler w a w' :
  body w = (Ok a, w') -> try_except body handler w = (Ok a, w').
Proof. intros E. unfold try_except. by rewrite E. Qed.

Lemma run_try_raise {A} (body : M A) handler w e w' :
  body w = (Raise e, w') -> try_except body handler w = handler e w'.
Proof. intros E. unfold try_except. by rewrite E. Qed.

(** ** Properties kept by a computation *)

Lemma preserves_ret {A} P (a : A) : preserves P (mret a).
Proof. by intros w Hw. Qed.

Lemma preserves_lift {A} P (r : result A) : preserves P (lift r).
Proof. by intros w Hw. Qed.

Lemma preserves_bind {A B} P (m : M A) (k : A -> M B) :
  preserves P m -> (forall a, preserves P (k a)) -> preserves P (m ≫= k).
Proof.
  intros Hm Hk w Hw. rewrite run_bind. specialize (Hm w Hw).
  destruct (m w) as [[a|e] w']; simpl in *; [by apply Hk|done].
Qed.

Lemma preserves_try {A} P (body : M A) handler :
  preserves P body -> (forall e, preserves P (handler e)) ->
  preserves P (try_except body handler).
Proof.
  intros Hb Hh w Hw. unfold try_except. specialize (Hb w Hw).
  destruct (body w) as [[a|e] w']; simpl in *; [done|by apply Hh].
Qed.

Ltac prim :=
  let w := fresh "w" in
  let Hw := fresh "Hw" in
  intros w Hw;
  unfold on_self, on_fs, on_chat, traced, replies, spawned in *; cbn;
  repeat match goal with
         | |- context [match ?x with _ => _ end] => destruct x eqn:?; cbn
         end;
  try right; try done.

Section Primitives.
Context (Q : OCRPlugin -> Prop) (R : gmap pystr node -> Prop) (ev : effect).
Context (C : list pystr -> list (list (option pystr)) -> Prop).

Lemma get_self_self : preserves (on_self Q) get_self.
Proof. prim. Qed.
Lemma time_time_self : preserves (on_self Q) time_time.
Proof. prim. Qed.
Lemma post_self url data : preserves (on_self Q) (post url data).
Proof. prim. Qed.
Lemma log_self l msg : preserves (on_self Q) (log l msg).
Proof. prim. Qed.
Lemma yield_reply_self msg : preserves (on_self Q) (yield_reply msg).
Proof. prim. Qed.
Lemma create_task_self paths : preserves (on_self Q) (create_task paths).
Proof. prim. Qed.
Lemma sleep_self n : preserves (on_self Q) (sleep n).
Proof. prim. Qed.
Lemma open_read_self path : preserves (on_self Q) (open_read path).
Proof. unfold open_read. prim. Qed.
Lemma open_write_self path data : preserves (on_self Q) (open_write path data).
Proof. unfold open_write. prim. Qed.
Lemma path_exists_self path : preserves (on_self Q) (path_exists path).
Proof. prim. Qed.
Lemma unlink_self path : preserves (on_self Q) (unlink path).
Proof. unfold unlink. prim. Qed.
Lemma makedirs_self path : preserves (on_self Q) (makedirs path).
Proof. unfold makedirs. prim. Qed.
Lemma platform_call_self {A} (f : gmap pystr node -> result A * gmap pystr node) :
  preserves (on_self Q) (platform_call f).
Proof. unfold platform_call. prim. Qed.

Lemma get_self_fs : preserves (on_fs R) get_self.
Proof. prim. Qed.
Lemma time_time_fs : preserves (on_fs R) time_time.
Proof. prim. Qed.
Lemma post_fs url data : preserves (on_fs R) (post url data).
Proof. prim. Qed.
Lemma log_fs l msg : preserves (on_fs R) (log l msg).
Proof. prim. Qed.
Lemma yield_reply_fs msg : preserves (on_fs R) (yield_reply msg).
Proof. prim. Qed.
Lemma create_task_fs paths : preserves (on_fs R) (create_task paths).
Proof. prim. Qed.
Lemma sleep_fs n : preserves (on_fs R) (sleep n).
Proof. prim. Qed.
Lemma open_read_fs path : preserves (on_fs R) (open_read path).
Proof. unfold open_read. prim. Qed.
Lemma path_exists_fs path : preserves (on_fs R) (path_exists path).
Proof. prim. Qed.
Lemma set_access_token_fs v : preserves (on_fs R) (set_access_token v).
Proof. prim. Qed.
Lemma set_token_expire_time_fs t : preserves (on_fs R) (set_token_expire_time t).
Proof. prim. Qed.

Lemma get_self_chat : preserves (on_chat C) get_self.
Proof. prim. Qed.
Lemma time_time_chat : preserves (on_chat C) time_time.
Proof. prim. Qed.
Lemma post_chat url data : preserves (on_chat C) (post url data).
Proof. prim. Qed.
Lemma log_chat l msg : preserves (on_chat C) (log l msg).
Proof. prim. Qed.
Lemma sleep_chat n : preserves (on_chat C) (sleep n).
Proof. prim. Qed.
Lemma open_read_chat path : preserves (on_chat C) (open_read path).
Proof. unfold open_read. prim. Qed.
Lemma open_write_chat path data : preserves (on_chat C) (open_write path data).
Proof. unfold open_write. prim. Qed.
Lemma path_exists_chat path : preserves (on_chat C) (path_exists path).
Proof. prim. Qed.
Lemma platform_call_chat {A} (f : gmap pystr node -> result A * gmap pystr node) :
  preserves (on_chat C) (platform_call f).
Proof. unfold platform_call. prim. Qed.
Lemma set_access_token_chat v : preserves (on_chat C) (set_access_token v).
Proof. prim. Qed.
Lemma set_token_expire_time_chat t :
  preserves (on_chat C) (set_token_expire_time t).
Proof. prim. Qed.

Lemma get_self_traced : preserves (traced ev) get_self.
Proof. prim. Qed.
Lemma time_time_traced : preserves (traced ev) time_time.
Proof. prim. Qed.
Lemma log_traced l msg : preserves (traced ev) (log l msg).
Proof. prim. Qed.
Lemma path_exists_traced path : preserves (traced ev) (path_exists path).
Proof. prim. Qed.
Lemma unlink_traced path : preserves (traced ev) (unlink path).
Proof. unfold unlink. prim. Qed.
Lemma sleep_traced n : preserves (traced ev) (sleep n).
Proof. prim. Qed.

End Primitives.

Create HintDb keeps.
#[global] Hint Resolve preserves_ret preserves_lift
  get_self_self time_time_self post_self log_self yield_reply_self
  create_task_self sleep_self open_read_self open_write_self
  path_exists_self unlink_self makedirs_self platform_call_self
  get_self_fs time_time_fs post_fs log_fs yield_reply_fs create_task_fs
  sleep_fs open_read_fs path_exists_fs set_access_token_fs
  set_token_expire_time_fs
  get_self_chat time_time_chat post_chat log_chat sleep_chat open_read_chat
  open_write_chat path_exists_chat platform_call_chat set_access_token_chat
  set_token_expire_time_chat
  get_self_traced time_time_traced log_traced path_exists_traced
  unlink_traced sleep_traced : keeps.

(** Walks through binds, handlers and case distinctions. *)
Ltac keeps :=
  repeat first
    [ progress auto with keeps
    | apply preserves_bind; [|intros]
    | apply preserves_try; [|intros]
    | match goal with
      | |- preserves _ (if ?b then _ else _) => destruct b
      | |- preserves _ (match ?x with _ => _ end) => destruct x
      | |- preserves _ (let '(_, _) := ?x in _) => destruct x
      end ].

(** ** Computations that never raise *)

Lemma never_raises_ret {A} (a : A) : never_raises (mret a).
Proof. intros w. by exists a. Qed.

Lemma never_raises_bind {A B} (m : M A) (k : A -> M B) :
  never_raises m -> (forall a, never_raises (k a)) -> never_raises (m ≫= k).
Proof.
  intros Hm Hk w. rewrite run_bind. destruct (Hm w) as [a Ha].
  destruct (m w) as [[a'|e] w']; simpl in Ha; [|done]. apply Hk.
Qed.

Lemma never_raises_try {A} (body : M A) handler :
  (forall e, never_raises (handler e)) -> never_raises (try_except body handler).
Proof.
  intros Hh w. unfold try_except.
  destruct (body w) as [[a|e] w']; [by exists a|apply Hh].
Qed.

Lemma never_raises_log l msg : never_raises (log l msg).
Proof. intros w. by exists tt. Qed.

Lemma never_raises_yield_reply msg : never_raises (yield_reply msg).
Proof. intros w. by exists tt. Qed.

Lemma never_raises_sleep n : never_raises (sleep n).
Proof. intros w. by exists tt. Qed.

Lemma never_raises_path_exists p : never_raises (path_exists p).
Proof. intros w. by eexists. Qed.

Lemma never_raises_get_self : never_raises get_self.
Proof. intros w. by eexists. Qed.

Lemma never_raises_time_time : never_raises time_time.
Proof. intros w. by eexists. Qed.

Create HintDb total.
#[global] Hint Resolve never_raises_ret never_raises_log never_raises_yield_reply
  never_raises_sleep never_raises_path_exists never_raises_get_self
  never_raises_time_time : total.

Ltac total :=
  repeat first
    [ progress auto with total
    | apply never_raises_try; intros
    | apply never_raises_bind; [|intros]
    | match goal with
      | |- never_raises (if ?b then _ else _) => destruct b
      | |- never_raises (match ?x with _ => _ end) => destruct x
      end ].

Lemma never_raises_run {A} (m : M A) w :
  never_raises m -> exists a w', m w = (Ok a, w').
Proof.
  intros Hm. destruct (Hm w) as [a Ha]. destruct (m w) as [r w'].
  simpl in Ha. subst. eauto.
Qed.

(* ===================================================================== *)
(** * The token cache: [get_access_token] *)
(* ===================================================================== *)

Section Token.
Context `{PyRuntime}.

Lemma str_truthy_true s : s ≠ [] -> str_truthy s = true.
Proof. by destruct s. Qed.

Lemma configured_test s :
  configured s ->
  negb (str_truthy (api_key s)) || negb (str_truthy (secret_key s)) = false.
Proof. intros [Ha Hs]. by rewrite !str_truthy_true. Qed.

Lemma not_configured_test s :
  api_key s = [] \/ secret_key s = [] ->
  negb (str_truthy (api_key s)) || negb (str_truthy (secret_key s)) = true.
Proof. intros [-> | ->]; simpl; [done|]. apply orb_true_r. Qed.

Lemma configured_dec s : configured s \/ (api_key s = [] \/ secret_key s = []).
Proof.
  unfold configured. destruct (api_key s), (secret_key s); auto.
Qed.

(** Without both keys the call returns at once. *)
Lemma get_access_token_without_keys w :
  api_key (self w) = [] \/ secret_key (self w) = [] ->
  get_access_token w = (Ok PNone, w).
Proof.
  intros Hk. unfold get_access_token, mbind, M_bind, get_self.
  by rewrite (not_configured_test _ Hk).
Qed.

(** With the keys set and a stale cache, [get_access_token] is the exchange
    under its handler, run after the test of the cache. *)
Lemma get_access_token_stale w :
  configured (self w) -> stale w ->
  get_access_token w
  = try_except (request_token (self w))
      (fun e => log ERROR (py "获取百度API token异常: " ++ exn_str e);; mret PNone)
      (checked w).
Proof.
  intros Hc Hst. unfold get_access_token, mbind at 1, M_bind at 1, get_self.
  rewrite (configured_test _ Hc). unfold checked, stale, now in *.
  unfold mbind at 1, M_bind at 1.
  destruct (truthy (access_token (self w))).
  - destruct Hst as [?|Hf]; [done|].
    unfold mbind at 1, M_bind at 1, time_time. simpl. by rewrite Hf.
  - done.
Qed.

Lemma self_checked w : self (checked w) = self w.
Proof. unfold checked. by destruct (truthy _). Qed.

Lemma requests_checked w : requests (checked w) = requests w.
Proof. unfold checked. by destruct (truthy _). Qed.

Lemma env_checked w : env (checked w) = env w.
Proof. unfold checked. by destruct (truthy _). Qed.


(** The exchange fails: the world keeps the plugin object as it was. *)
Lemma request_token_fails w handler_msg :
  (exists e, net (env w) (length (requests w)) (token_request (self w)) = Raise e) \/
  (exists r, net (env w) (length (requests w)) (token_request (self w)) = Ok r /\
             member (py "access_token") r = None) ->
  exists w',
    try_except (request_token (self w))
      (fun e => log ERROR (handler_msg e);; mret PNone) w = (Ok PNone, w') /\
    self w' = self w.
Proof.
  unfold token_request.
  intros [[e He] | (r & Hr & Hm)];
    unfold try_except, request_token, mbind, M_bind, post, lift; cbn beta.
  - rewrite He. cbn. eauto.
  - rewrite Hr. destruct r as [| | | |s|l|d]; cbn -[py] in *;
      try (eexists; split; reflexivity).
    + destruct (str_contains s _); eexists; split; reflexivity.
    + destruct (existsb _ l); eexists; split; reflexivity.
    + rewrite Hm. rewrite bool_decide_eq_false_2 by (by intros [? ?]).
      cbn -[py]. destruct (d !! py "error_description");
        eexists; split; reflexivity.
Qed.


Lemma set_access_token_configured v :
  preserves (on_self configured) (set_access_token v).
Proof. by intros w Hw. Qed.

Lemma set_token_expire_time_configured t :
  preserves (on_self configured) (set_token_expire_time t).
Proof. by intros w Hw. Qed.

Lemma request_token_configured s :
  preserves (on_self configured) (request_token s).
Proof.
  unfold request_token.
  pose proof set_access_token_configured.
  pose proof set_token_expire_time_configured.
  keeps.
Qed.

Lemma get_access_token_configured :
  preserves (on_self configured) get_access_token.
Proof.
  unfold get_access_token. pose proof request_token_configured. keeps.
Qed.

(** [get_access_token] keeps the invariant of the plugin object. *)
Lemma get_access_token_inv : preserves (on_self plugin_inv) get_access_token.
Proof.
  intros w Hw. destruct (configured_dec (self w)) as [Hc|Hn].
  - intros _. by apply get_access_token_configured.
  - by rewrite (get_access_token_without_keys _ Hn).
Qed.

Lemma get_access_token_fs R : preserves (on_fs R) get_access_token.
Proof. unfold get_access_token, request_token. keeps. Qed.

Lemma get_access_token_chat C : preserves (on_chat C) get_access_token.
Proof. unfold get_access_token, request_token. keeps. Qed.

Lemma get_access_token_never_raises : never_raises get_access_token.
Proof. unfold get_access_token. total. Qed.

End Token.

#[global] Hint Resolve get_access_token_inv get_access_token_fs
  get_access_token_chat : keeps.
#[global] Hint Resolve get_access_token_never_raises : total.

(* ===================================================================== *)
(** * Recognition: [_perform_ocr] *)
(* ===================================================================== *)

Section Recognition.
Context `{PyRuntime}.

Lemma perform_ocr_never_raises path : never_raises (_perform_ocr path).
Proof. unfold _perform_ocr. total. Qed.

Lemma perform_ocr_fs R path : preserves (on_fs R) (_perform_ocr path).
Proof. unfold _perform_ocr, recognise. keeps. Qed.

Lemma perform_ocr_chat C path : preserves (on_chat C) (_perform_ocr path).
Proof. unfold _perform_ocr, recognise. keeps. Qed.

Lemma perform_ocr_inv path : preserves (on_self plugin_inv) (_perform_ocr path).
Proof. unfold _perform_ocr, recognise. keeps. Qed.

(** Whatever the body of the [try] raises, the handler turns into [""]. *)
Lemma perform_ocr_caught path w e w' :
  recognise path w = (Raise e, w') ->
  _perform_ocr path w
  = (Ok [], emit (ELog ERROR (py "OCR识别失败: " ++ exn_str e)) w').
Proof. intros E. unfold _perform_ocr. by rewrite (run_try_raise _ _ _ _ _ E). Qed.

Lemma perform_ocr_returned path w text w' :
  recognise path w = (Ok text, w') -> _perform_ocr path w = (Ok text, w').
Proof. intros E. unfold _perform_ocr. by rewrite (run_try_ok _ _ _ _ _ E). Qed.

(** No token: the first sentinel. *)
Lemma recognise_unauthenticated path w tok w1 :
  get_access_token w = (Ok tok, w1) -> truthy tok = false ->
  recognise path w = (Ok (py "OCR服务认证失败"), w1).
Proof.
  intros Ht Hf. unfold recognise. rewrite (run_bind_ok _ _ _ _ _ Ht).
  by rewrite Hf.
Qed.

(** The image cannot be read. *)
Lemma recognise_unreadable path w tok w1 e :
  get_access_token w = (Ok tok, w1) -> truthy tok = true ->
  fst (open_read path w1) = Raise e ->
  recognise path w = (Raise e, w1).
Proof.
  intros Ht Hf Hr. unfold recognise. rewrite (run_bind_ok _ _ _ _ _ Ht).
  rewrite Hf. cbn [negb]. rewrite run_bind. unfold open_read in *.
  destruct (fs w1 !! path) as [[data|]|]; simpl in Hr; by inversion Hr.
Qed.

(** With a token and a readable image the request is sent; what follows
    depends on the answer. *)
Lemma recognise_sent path w tok w1 data :
  get_access_token w = (Ok tok, w1) -> truthy tok = true ->
  fs w1 !! path = Some (File data) ->
  recognise path w
  = match ocr_reply w1 tok data with
    | Raise e => (Raise e, emit (EPost (ocr_request (self w1) tok data)) w1)
    | Ok result =>
      (has ← lift (py_contains (py "error_code") result);
       if has : bool then
         error_msg ← lift (py_get result (py "error_msg") (PStr (py "未知错误")));
         code ← lift (py_getitem result (py "error_code"));
         log ERROR (py "百度OCR API错误: " ++ py_str error_msg
                    ++ py " (错误码: " ++ py_str code ++ py ")");;
         mret (py "OCR识别失败: " ++ py_str error_msg)
       else
         words_result ← lift (py_get result (py "words_result") (PList []));
         items ← lift (py_iter words_result);
         text_list ← lift (words_of items);
         text ← lift (py_join [NL] text_list);
         mret (strip (re_sub_blank text)))
        (emit (EPost (ocr_request (self w1) tok data)) w1)
    end.
Proof.
  intros Ht Hf Hr. unfold recognise. rewrite (run_bind_ok _ _ _ _ _ Ht).
  rewrite Hf. cbn [negb]. rewrite run_bind. unfold open_read. rewrite Hr.
  rewrite run_bind. unfold get_self. rewrite run_bind.
  unfold post, ocr_reply, ocr_request.
  by destruct (net _ _ _).
Qed.

Lemma recognise_transport path w tok w1 data e :
  get_access_token w = (Ok tok, w1) -> truthy tok = true ->
  fs w1 !! path = Some (File data) ->
  ocr_reply w1 tok data = Raise e ->
  recognise path w = (Raise e, emit (EPost (ocr_request (self w1) tok data)) w1).
Proof.
  intros Ht Hf Hr He. rewrite (recognise_sent _ _ _ _ _ Ht Hf Hr). by rewrite He.
Qed.

(** The answer carries an error code: the second sentinel. *)
Lemma recognise_provider_error path w tok w1 data d code :
  get_access_token w = (Ok tok, w1) -> truthy tok = true ->
  fs w1 !! path = Some (File data) ->
  ocr_reply w1 tok data = Ok (PDict d) ->
  d !! py "error_code" = Some code ->
  exists w2,
    recognise path w
    = (Ok (provider_error (default (PStr (py "未知错误")) (d !! py "error_msg"))), w2)
    /\ fs w2 = fs w1 /\ spawned w2 = spawned w1 /\ replies w2 = replies w1.
Proof.
  intros Ht Hf Hr He Hc. rewrite (recognise_sent _ _ _ _ _ Ht Hf Hr), He.
  unfold mbind, M_bind, lift. cbn -[py]. rewrite Hc.
  rewrite bool_decide_eq_true_2 by eauto. cbn -[py].
  destruct (d !! py "error_msg"); eexists; split_and!; reflexivity.
Qed.

Lemma words_of_strings items words :
  Forall2 (fun item ws => member (py "words") item = Some (PStr ws)) items words ->
  words_of items = Ok (map PStr words).
Proof.
  induction 1 as [|item ws items words Hm _ IH]; [done|].
  cbn -[py]. destruct item; try done. cbn -[py] in *. by rewrite Hm, IH.
Qed.

Lemma all_str_strings words : all_str (map PStr words) = Ok words.
Proof. induction words as [|ws words IH]; [done|]. simpl. by rewrite IH. Qed.

(** The answer carries the lines of the text. *)
Lemma recognise_words path w tok w1 data d items words :
  get_access_token w = (Ok tok, w1) -> truthy tok = true ->
  fs w1 !! path = Some (File data) ->
  ocr_reply w1 tok data = Ok (PDict d) ->
  d !! py "error_code" = None ->
  d !! py "words_result" = Some (PList items) ->
  Forall2 (fun item ws => member (py "words") item = Some (PStr ws)) items words ->
  recognise path w
  = (Ok (strip (re_sub_blank (str_join [NL] words))),
     emit (EPost (ocr_request (self w1) tok data)) w1).
Proof.
  intros Ht Hf Hr He Hc Hw Hi. rewrite (recognise_sent _ _ _ _ _ Ht Hf Hr), He.
  unfold mbind, M_bind, lift. cbn -[py]. rewrite Hc, Hw.
  rewrite bool_decide_eq_false_2 by (by intros [? ?]). cbn -[py].
  rewrite (words_of_strings _ _ Hi). unfold py_join.
  by rewrite all_str_strings.
Qed.

End Recognition.

#[global] Hint Resolve perform_ocr_inv perform_ocr_fs : keeps.
#[global] Hint Resolve perform_ocr_never_raises : total.

(* ===================================================================== *)
(** * Download and the command handler *)
(* ===================================================================== *)

Section Handler.
Context `{PyRuntime}.

Lemma download_image_never_raises event file_id :
  never_raises (download_image event file_id).
Proof. unfold download_image. total. Qed.

Lemma download_image_inv event file_id :
  preserves (on_self plugin_inv) (download_image event file_id).
Proof. unfold download_image, fetch, read_attachment, save_copy. keeps. Qed.

Lemma download_image_chat C event file_id :
  preserves (on_chat C) (download_image event file_id).
Proof. unfold download_image, fetch, read_attachment, save_copy. keeps. Qed.

(** Whatever the body of the [try] raises, the handler turns into no local
    path. *)
Lemma download_image_caught event file_id w e w' :
  fetch event file_id w = (Raise e, w') ->
  download_image event file_id w
  = (Ok ([], None), emit (ELog ERROR (py "图片下载失败: " ++ exn_str e)) w').
Proof. intros E. unfold download_image. by rewrite (run_try_raise _ _ _ _ _ E). Qed.

(** No attachment carries the file id: no local path. *)
Lemma download_image_not_found event file_id w :
  find_image (get_messages event) file_id = None ->
  download_image event file_id w = (Ok ([], None), w).
Proof. intros E. unfold download_image, fetch, try_except. by rewrite E. Qed.

Lemma path_join_nonempty a b : b ≠ [] -> path_join a b ≠ [].
Proof.
  intros Hb. unfold path_join.
  destruct (match b with c :: _ => is_sep c | [] => false end); [done|].
  destruct (rev a) as [|c r] eqn:E; [done|].
  destruct (is_sep c); by destruct a.
Qed.

Lemma as_path_truthy v p : as_path v = Ok p -> truthy v = true -> p ≠ [].
Proof. destruct v; try done. intros [= ->]. by destruct p. Qed.

Lemma read_attachment_ok event file_id image_obj w p data w' :
  read_attachment event file_id image_obj w = (Ok (Some (p, data)), w') ->
  p ≠ [] /\ fs w' !! p = Some (File data).
Proof.
  unfold read_attachment, mbind, M_bind, platform_call, lift, path_exists,
    open_read.
  destruct (convert_to_file_path image_obj (fs w)) as [[file_path|e] m];
    [|done].
  destruct (str_truthy file_path) eqn:Htr; cbn -[py].
  - destruct (m !! file_path) as [[d|]|] eqn:Hm; cbn -[py].
    + rewrite Hm. intros [= -> -> <-]. split; [by destruct p|done].
    + by rewrite Hm.
    + destruct (get_image event file_id m) as [[result|e] m'];
        cbn -[py]; [|done].
      destruct (py_get result _ _) as [fp|e]; cbn -[py]; [|done].
      destruct (truthy fp) eqn:Hfp; cbn -[py]; [|done].
      destruct (as_path fp) as [q|e] eqn:Hq; cbn -[py]; [|done].
      destruct (m' !! q) as [[d|]|] eqn:Hq'; cbn -[py]; try done.
      intros [= -> -> <-]. split; [by eapply as_path_truthy|done].
  - destruct (get_image event file_id m) as [[result|e] m'];
      cbn -[py]; [|done].
    destruct (py_get result _ _) as [fp|e]; cbn -[py]; [|done].
    destruct (truthy fp) eqn:Hfp; cbn -[py]; [|done].
    destruct (as_path fp) as [q|e] eqn:Hq; cbn -[py]; [|done].
    destruct (m' !! q) as [[d|]|] eqn:Hq'; cbn -[py]; try done.
    intros [= -> -> <-]. split; [by eapply as_path_truthy|done].
Qed.

Lemma existing_insert m p q data w :
  p ≠ [] -> is_Some (<[q := File data]> m !! p) ->
  existing (set_fs (<[q := File data]> m) w) (Some p) = true.
Proof.
  intros Hp Hm. unfold existing. cbn. rewrite str_truthy_true by done.
  by apply bool_decide_eq_true_2.
Qed.

Lemma save_copy_ok p data w temp_path original_path w' :
  p ≠ [] -> fs w !! p = Some (File data) ->
  save_copy p data w = (Ok (temp_path, original_path), w') ->
  temp_path ≠ [] /\ existing w' (Some temp_path) = true /\
  existing w' original_path = true.
Proof.
  intros Hp Hr.
  unfold save_copy, mbind, M_bind, get_self, time_time, lift, open_write.
  destruct (int_of_float _) as [n|e]; cbn -[py path_join]; [|done].
  set (temp := path_join _ _).
  assert (temp ≠ []) as Htemp by (apply path_join_nonempty; by vm_compute).
  assert (forall w0, existing (set_fs (<[temp := File data]> (fs w)) w0) (Some temp) = true
                /\ existing (set_fs (<[temp := File data]> (fs w)) w0) (Some p) = true)
    as Hex.
  { intros w0. split; apply existing_insert; try done.
    - by rewrite lookup_insert_eq.
    - destruct (decide (temp = p)) as [->|Hne].
      + by rewrite lookup_insert_eq.
      + by rewrite lookup_insert_ne, Hr. }
  destruct (fs w !! temp) as [[d|]|]; cbn -[py path_join]; try done.
  all: intros [= <- <- <-]; split; [done|]; apply Hex.
Qed.

(** The outcome of a download: no local path at all, or a temporary copy
    that is on disk, next to the original it was read from. *)
Lemma download_image_outcome event file_id w :
  exists temp_path original_path w1,
    download_image event file_id w = (Ok (temp_path, original_path), w1) /\
    ((temp_path = [] /\ original_path = None) \/
     (temp_path ≠ [] /\
      existing w1 (Some temp_path) = true /\
      existing w1 original_path = true)).
Proof.
  unfold download_image, fetch, try_except.
  destruct (find_image _ _) as [image_obj|]; [|by eauto 10].
  rewrite run_bind.
  destruct (read_attachment event file_id image_obj w)
    as [[[[p data]|]|e] w'] eqn:Hread; [| |]; try by eauto 10.
  apply read_attachment_ok in Hread as [Hp Hfs].
  destruct (save_copy p data w') as [[[t o]|e] w1] eqn:Hsave; [|by eauto 10].
  do 3 eexists. split; [reflexivity|right].
  by eapply save_copy_ok.
Qed.

(** No image in the message. *)
Lemma ocr_command_no_image recognize event w :
  omap as_image (get_messages event) = [] ->
  ocr_command_with recognize event w
  = (Ok tt, emit (EReply (py "请发送一张包含文字的图片")) w).
Proof. intros E. unfold ocr_command_with. by rewrite E. Qed.

(** The download gave no local path: one reply, and nothing else. *)
Lemma ocr_command_download_failed recognize event w first rest orig w1 :
  omap as_image (get_messages event) = first :: rest ->
  download_image event (file first) w = (Ok ([], orig), w1) ->
  ocr_command_with recognize event w
  = (Ok tt, emit (EReply (py "图片下载失败")) w1).
Proof.
  intros E Hd. unfold ocr_command_with. rewrite E.
  unfold try_except. by rewrite (run_bind_ok _ _ _ _ _ Hd).
Qed.

(** The download gave a local path and the recognition a text: the
    artifacts that exist are handed to the cleanup, then the reply is
    selected. *)
Lemma ocr_command_recognized recognize event w first rest temp orig w1 text w2 :
  omap as_image (get_messages event) = first :: rest ->
  download_image event (file first) w = (Ok (temp, orig), w1) ->
  temp ≠ [] ->
  recognize temp w1 = (Ok text, w2) ->
  ocr_command_with recognize event w
  = (Ok tt, emit (EReply (reply_for text))
              (schedule (files_to_delete w2 temp orig) w2)).
Proof.
  intros E Hd Ht Hr. unfold ocr_command_with. rewrite E.
  unfold try_except. rewrite (run_bind_ok _ _ _ _ _ Hd). cbv beta iota.
  rewrite (str_truthy_true _ Ht). cbn [negb].
  rewrite (run_bind_ok _ _ _ _ _ Hr).
  unfold files_to_delete, schedule, reply_for, existing, mbind, M_bind,
    path_exists, create_task, yield_reply. cbn -[py strip].
  rewrite (str_truthy_true _ Ht). cbn -[py strip].
  destruct (bool_decide (is_Some (fs w2 !! temp)));
    destruct orig as [p|]; cbn -[py strip];
    try (destruct (str_truthy p); cbn -[py strip];
         try destruct (bool_decide (is_Some (fs w2 !! p))); cbn -[py strip]);
    by destruct (str_truthy (strip text)).
Qed.

Lemma ocr_command_never_raises recognize event :
  never_raises (ocr_command_with recognize event).
Proof. unfold ocr_command_with. total. Qed.

Lemma ocr_command_inv event : preserves (on_self plugin_inv) (ocr_command event).
Proof.
  unfold ocr_command, ocr_command_with. pose proof download_image_inv. keeps.
Qed.

End Handler.

(* ===================================================================== *)
(** * Cleanup: [cleanup_files] *)
(* ===================================================================== *)

Section Cleanup.
Context `{PyRuntime}.

Lemma cleanup_one_never_raises path : never_raises (cleanup_one path).
Proof. unfold cleanup_one. total. Qed.

Lemma cleanup_loop_never_raises paths : never_raises (cleanup_loop paths).
Proof.
  induction paths as [|path paths IH]; simpl; [total|].
  pose proof (cleanup_one_never_raises path). total.
Qed.

Lemma cleanup_files_never_raises paths : never_raises (cleanup_files paths).
Proof.
  unfold cleanup_files. pose proof (cleanup_loop_never_raises paths). total.
Qed.

Lemma cleanup_one_inv Q path : preserves (on_self Q) (cleanup_one path).
Proof. unfold cleanup_one. keeps. Qed.

Lemma cleanup_loop_inv Q paths : preserves (on_self Q) (cleanup_loop paths).
Proof.
  induction paths as [|path paths IH]; simpl; [keeps|].
  pose proof (cleanup_one_inv Q path). keeps.
Qed.

Lemma cleanup_files_inv Q paths : preserves (on_self Q) (cleanup_files paths).
Proof. unfold cleanup_files. pose proof (cleanup_loop_inv Q paths). keeps. Qed.

(** A path that is null, empty or not there is left alone. *)
Lemma cleanup_one_absent path w :
  existing w path = false -> cleanup_one path w = (Ok tt, w).
Proof.
  destruct path as [p|]; [|done]. unfold existing, cleanup_one.
  rewrite run_bind. destruct (str_truthy p); cbn; [|done].
  by intros ->.
Qed.

Lemma cleanup_loop_absent paths w :
  Forall (fun path => existing w path = false) paths ->
  cleanup_loop paths w = (Ok tt, w).
Proof.
  induction 1 as [|path paths Hp _ IH]; [done|].
  simpl. by rewrite (run_bind_ok _ _ _ _ _ (cleanup_one_absent _ _ Hp)).
Qed.

(** What [cleanup_one] does to a path that exists. *)
Lemma cleanup_one_existing p w :
  existing w (Some p) = true ->
  exists w', cleanup_one (Some p) w = (Ok tt, w') /\
    env w' = env w /\
    traced (EUnlink p) w' /\
    (forall q, q ≠ p -> fs w' !! q = fs w !! q) /\
    (forall data, fs w !! p = Some (File data) -> undeletable (env w) p = false ->
                  fs w' !! p = None).
Proof.
  unfold existing, cleanup_one. intros [Hp Hex]%andb_true_iff.
  rewrite run_bind. rewrite Hp. cbn. rewrite Hex.
  unfold try_except, unlink, mbind, M_bind, log. cbn.
  apply bool_decide_eq_true_1 in Hex as [nd Hnd]. rewrite Hnd.
  destruct nd as [data|]; [destruct (undeletable (env w) p) eqn:Hu|]; cbn;
    (eexists; split; [reflexivity|]); cbn; unfold traced; cbn.
  - split_and!; [done|by right; left|done|]. intros d _ ?. congruence.
  - split_and!; [done|by right; left| |].
    + intros q Hq. by rewrite lookup_delete_ne.
    + intros d _ _. by rewrite lookup_delete_eq.
  - split_and!; [done|by right; left|done|done].
Qed.

(** What [cleanup_one] does to the paths it is not called on. *)
Lemma cleanup_one_other path w q :
  path ≠ Some q ->
  fs (snd (cleanup_one path w)) !! q = fs w !! q /\
  env (snd (cleanup_one path w)) = env w.
Proof.
  intros Hne. destruct (existing w path) eqn:Hex.
  - destruct path as [p|]; [|done].
    destruct (cleanup_one_existing p w Hex) as (w' & -> & He & _ & Ho & _).
    split; [|done]. apply Ho. congruence.
  - by rewrite (cleanup_one_absent _ _ Hex).
Qed.

Lemma cleanup_one_traced e path : preserves (traced e) (cleanup_one path).
Proof. unfold cleanup_one. keeps. Qed.

Lemma cleanup_loop_traced e paths : preserves (traced e) (cleanup_loop paths).
Proof.
  induction paths as [|path paths IH]; simpl; [keeps|].
  pose proof (cleanup_one_traced e path). keeps.
Qed.

Lemma cleanup_one_run path w :
  exists w', cleanup_one path w = (Ok tt, w').
Proof.
  destruct (never_raises_run _ w (cleanup_one_never_raises path)) as ([] & w' & E).
  eauto.
Qed.

(** A path once gone stays gone. *)
Lemma cleanup_one_gone path w q :
  fs w !! q = None -> fs (snd (cleanup_one path w)) !! q = None.
Proof.
  intros Hq. destruct (decide (path = Some q)) as [->|Hne].
  - rewrite cleanup_one_absent; [done|]. unfold existing. rewrite Hq.
    rewrite bool_decide_eq_false_2 by (by intros [? ?]). apply andb_false_r.
  - by rewrite (proj1 (cleanup_one_other _ w q Hne)).
Qed.

Lemma cleanup_loop_gone paths w q :
  fs w !! q = None -> fs (snd (cleanup_loop paths w)) !! q = None.
Proof.
  revert w. induction paths as [|path paths IH]; intros w Hq; [done|].
  simpl. destruct (cleanup_one_run path w) as [w' E].
  rewrite (run_bind_ok _ _ _ _ _ E). apply IH.
  replace w' with (snd (cleanup_one path w)) by by rewrite E.
  by apply cleanup_one_gone.
Qed.

(** Every listed path that exists has its deletion attempted, whatever
    happened to the paths before it. *)
Lemma cleanup_loop_attempts paths w p :
  In (Some p) paths -> existing w (Some p) = true ->
  traced (EUnlink p) (snd (cleanup_loop paths w)).
Proof.
  revert w. induction paths as [|path paths IH]; intros w Hin Hex; [done|].
  simpl. destruct (cleanup_one_run path w) as [w' E].
  rewrite (run_bind_ok _ _ _ _ _ E).
  destruct (decide (path = Some p)) as [->|Hne].
  - destruct (cleanup_one_existing p w Hex) as (w'' & E' & _ & Ht & _).
    rewrite E in E'. injection E' as <-. by apply cleanup_loop_traced.
  - destruct Hin as [?|Hin]; [done|]. apply IH; [done|].
    destruct (cleanup_one_other path w p Hne) as [Hfs _]. rewrite E in Hfs.
    unfold existing in *. simpl in Hfs. by rewrite Hfs.
Qed.

(** Every listed file that can be deleted is gone at the end, whatever
    happened to the other paths. *)
Lemma cleanup_loop_deletes paths w p data :
  In (Some p) paths -> p ≠ [] ->
  fs w !! p = Some (File data) -> undeletable (env w) p = false ->
  fs (snd (cleanup_loop paths w)) !! p = None.
Proof.
  revert w. induction paths as [|path paths IH]; intros w Hin Hp Hf Hu; [done|].
  simpl. destruct (cleanup_one_run path w) as [w' E].
  rewrite (run_bind_ok _ _ _ _ _ E).
  destruct (decide (path = Some p)) as [->|Hne].
  - assert (existing w (Some p) = true) as Hex.
    { unfold existing. rewrite Hf, str_truthy_true by done.
      by rewrite bool_decide_eq_true_2. }
    destruct (cleanup_one_existing p w Hex) as (w'' & E' & _ & _ & _ & Hd).
    rewrite E in E'. injection E' as <-. apply cleanup_loop_gone. eauto.
  - destruct Hin as [?|Hin]; [done|].
    destruct (cleanup_one_other path w p Hne) as [Hfs He]. rewrite E in Hfs, He.
    simpl in *. apply IH; try done; congruence.
Qed.

End Cleanup.

(* ===================================================================== *)
(** * The states a plugin object can reach *)
(* ===================================================================== *)

Section Reachable.
Context `{PyRuntime}.

Lemma init_inv tmp config w0 w :
  __init__ tmp config w0 = (Ok tt, w) -> plugin_inv (self w).
Proof.
  unfold __init__, mbind, M_bind, makedirs, log.
  destruct (fs w0 !! _) as [[?|]|]; cbn -[py path_join]; [done| |];
    destruct (_ || _); intros [= <-]; by intros ?.
Qed.

Lemma initialize_inv : preserves (on_self plugin_inv) initialize.
Proof. unfold initialize. keeps. Qed.

Lemma terminate_inv : preserves (on_self plugin_inv) terminate.
Proof. unfold terminate. keeps. Qed.

Lemma run_inv c : forall w, plugin_inv (self w) -> plugin_inv (self (run c w)).
Proof.
  destruct c; simpl.
  - apply initialize_inv.
  - apply get_access_token_inv.
  - apply download_image_inv.
  - apply perform_ocr_inv.
  - apply (cleanup_files_inv plugin_inv).
  - apply ocr_command_inv.
  - apply terminate_inv.
Qed.

(** Every reachable state satisfies the invariant of the plugin object. *)
Lemma reachable_inv w : reachable w -> plugin_inv (self w).
Proof.
  induction 1 as [tmp config w0 w E|c w _ IH|m n w _ IH].
  - by eapply init_inv.
  - by apply run_inv.
  - done.
Qed.

End Reachable.

(* ===================================================================== *)
(** * The claims *)
(* ===================================================================== *)

Lemma startswith_app m x : startswith (m ++ x) m = true.
Proof. induction m as [|c m IH]; [done|]. simpl. by rewrite N.eqb_refl, IH. Qed.

Lemma str_contains_unfold hay needle :
  str_contains hay needle
  = startswith hay needle ||
    match hay with
    | [] => false
    | _ :: h' => str_contains h' needle
    end.
Proof. by destruct hay. Qed.

Lemma str_contains_app pre m x : str_contains (pre ++ m ++ x) m = true.
Proof.
  induction pre as [|c pre IH]; rewrite str_contains_unfold.
  - cbn [app]. by rewrite startswith_app.
  - cbn [app]. rewrite IH. apply orb_true_r.
Qed.

Lemma replies_emit_reply msg w : replies (emit (EReply msg) w) = replies w ++ [msg].
Proof. reflexivity. Qed.

Lemma replies_schedule files w : replies (schedule files w) = replies w.
Proof. by destruct files. Qed.

Lemma spawned_emit_reply msg w : spawned (emit (EReply msg) w) = spawned w.
Proof. reflexivity. Qed.

Lemma spawned_schedule files w :
  files ≠ [] -> spawned (schedule files w) = spawned w ++ [files].
Proof. by destruct files. Qed.

Lemma strip_keeps_text c s : isspace c = false -> strip (c :: s) ≠ [].
Proof.
  intros Hc. unfold strip, rstrip. simpl. rewrite Hc.
  intros E. apply (f_equal (@rev N)) in E. rewrite rev_involutive in E.
  simpl in E.
  assert (forall l acc, (exists y, In y acc /\ isspace y = false) ->
                        lstrip (l ++ acc) ≠ []) as Hl.
  { induction l as [|d l IH]; simpl; intros acc (y & Hy & Hs).
    - induction acc as [|a acc IHa]; [done|]. simpl.
      destruct (isspace a) eqn:Ha; [|done].
      apply IHa. destruct Hy as [->|Hy]; [congruence|done].
    - destruct (isspace d); [|done]. apply IH. eauto. }
  apply (Hl (rev s) [c]); [|done]. exists c. split; [by left|done].
Qed.

Section Claims.
Context `{PyRuntime}.

(** C9.  When [api_key] or [secret_key] is empty, [get_access_token]
    returns [None] and leaves the world exactly as it was: nothing is sent
    to the network, nothing is logged, the clock is not even read. *)
Theorem get_access_token_not_configured w :
  api_key (self w) = [] \/ secret_key (self w) = [] ->
  get_access_token w = (Ok PNone, w).
Proof. apply get_access_token_without_keys. Qed.

(** C2.  In every state the plugin can reach in which a token is cached
    and the current time is strictly before the stored expiry time,
    [get_access_token] returns the cached token; the only change to the
    world is that the clock was read once more: no request is sent, and the
    plugin object (cached token and expiry time included) is unchanged. *)
Theorem get_access_token_cached w :
  reachable w -> cached w -> fresh w ->
  get_access_token w = (Ok (access_token (self w)), set_ticks (S (ticks w)) w)
  /\ requests (snd (get_access_token w)) = requests w
  /\ self (snd (get_access_token w)) = self w.
Proof.
  intros Hr Hc Hf.
  assert (get_access_token w
          = (Ok (access_token (self w)), set_ticks (S (ticks w)) w)) as E.
  { apply reachable_inv in Hr. specialize (Hr Hc).
    unfold get_access_token, mbind, M_bind, get_self, time_time.
    rewrite (configured_test _ Hr). unfold cached, fresh, now in *.
    rewrite Hc. cbn. by rewrite Hf. }
  by rewrite E.
Qed.


(** C4.  When the exchange is attempted (cache stale) and fails, because
    the request raises or because the response is not an object with an
    [access_token], [get_access_token] returns [None] and the cached token
    and expiry time are what they were. *)
Theorem get_access_token_exchange_fails w :
  stale w ->
  (exists e, token_reply w = Raise e) \/
  (exists r, token_reply w = Ok r /\ member (py "access_token") r = None) ->
  exists w',
    get_access_token w = (Ok PNone, w') /\
    access_token (self w') = access_token (self w) /\
    token_expire_time (self w') = token_expire_time (self w).
Proof.
  intros Hst Hfail.
  destruct (configured_dec (self w)) as [Hc|Hn].
  - rewrite (get_access_token_stale _ Hc Hst).
    unfold token_reply in Hfail.
    rewrite <- (self_checked w), <- (requests_checked w), <- (env_checked w)
      in Hfail.
    destruct (request_token_fails (checked w)
                (fun e => py "获取百度API token异常: " ++ exn_str e) Hfail)
      as (w' & E & Hs).
    rewrite self_checked in E, Hs. exists w'. by rewrite E, Hs.
  - exists w. by rewrite (get_access_token_without_keys _ Hn).
Qed.

(** A response with a token and no life time: the token is stored before
    the missing [expires_in] raises, so the call fails with the new token
    in the cache and the old expiry time. *)
Lemma get_access_token_no_lifetime w d tok :
  configured (self w) -> stale w ->
  token_reply w = Ok (PDict d) ->
  d !! py "access_token" = Some tok ->
  d !! py "expires_in" = None ->
  exists w',
    get_access_token w = (Ok PNone, w') /\
    access_token (self w') = tok /\
    token_expire_time (self w') = token_expire_time (self w).
Proof.
  intros Hc Hst Hr Htok Hexp.
  rewrite (get_access_token_stale _ Hc Hst).
  unfold token_reply, token_request in Hr.
  rewrite <- (requests_checked w), <- (env_checked w) in Hr.
  unfold try_except, request_token, mbind, M_bind, post, lift. cbn beta.
  rewrite Hr. cbn -[py]. rewrite Htok, Hexp. cbn -[py].
  eexists. split; [reflexivity|]. cbn -[py].
  split; [reflexivity|]. by rewrite self_checked.
Qed.

(** C1.  For a recognition response that is an object without
    [error_code] whose [words_result] is a list of objects with a string
    [words] each, [_perform_ocr] returns those strings, in order, joined
    with newlines, every run of blank lines collapsed and the white space
    at both ends trimmed: the result is the one text that is left of the
    collapsed text when white space is cut off in front and behind, and
    that neither starts nor ends with white space.  So the words ["A"],
    ["B"] give ["A\nB"]; the words ["A"], [""], [""], ["B"], whose joined
    text is ["A\n\n\nB"], give ["A\nB"] as well; the words ["  A"], [""],
    ["B "] give ["A\nB"] too; and no words give the empty string. *)
Theorem perform_ocr_text path w tok w1 data d items words :
  get_access_token w = (Ok tok, w1) -> truthy tok = true ->
  fs w1 !! path = Some (File data) ->
  ocr_reply w1 tok data = Ok (PDict d) ->
  d !! py "error_code" = None ->
  d !! py "words_result" = Some (PList items) ->
  Forall2 (fun item ws => member (py "words") item = Some (PStr ws)) items words ->
  fst (_perform_ocr path w)
  = Ok (strip (collapse_blank_lines (str_join [NL] words)))
  /\ (exists text,
        fst (_perform_ocr path w) = Ok text /\
        trims_white_space (collapse_blank_lines (str_join [NL] words)) text /\
        forall out,
          trims_white_space (collapse_blank_lines (str_join [NL] words)) out ->
          out = text)
  /\ (words = [py "A"; py "B"] ->
      fst (_perform_ocr path w) = Ok (py "A" ++ NL :: py "B"))
  /\ (words = [py "A"; []; []; py "B"] ->
      str_join [NL] words = py "A" ++ [NL; NL; NL] ++ py "B" /\
      fst (_perform_ocr path w) = Ok (py "A" ++ NL :: py "B"))
  /\ (words = [py "  A"; []; py "B "] ->
      fst (_perform_ocr path w) = Ok (py "A" ++ NL :: py "B"))
  /\ (words = [] -> fst (_perform_ocr path w) = Ok []).
Proof.
  intros Ht Hf Hr He Hc Hw Hi.
  pose proof (recognise_words _ _ _ _ _ _ _ _ Ht Hf Hr He Hc Hw Hi) as E.
  apply perform_ocr_returned in E. rewrite re_sub_blank_collapse in E.
  rewrite E. cbn [fst]. split_and!; [done| |by intros ->..].
  eexists. split; [reflexivity|]. split; [apply strip_trims|].
  intros out Hout. by apply (trims_unique _ _ _ Hout), strip_trims.
Qed.

(** C6.  [_perform_ocr] never raises.  Whatever exception the body of its
    [try] raises is caught and the result is the empty string; in
    particular when reading the image file raises, and when the request or
    the decoding of its JSON body raises. *)
Theorem perform_ocr_fail_soft path w :
  (exists text w', _perform_ocr path w = (Ok text, w'))
  /\ (forall e w', recognise path w = (Raise e, w') ->
                   fst (_perform_ocr path w) = Ok [])
  /\ (forall tok w1,
        get_access_token w = (Ok tok, w1) -> truthy tok = true ->
        (forall e, fst (open_read path w1) = Raise e ->
                   fst (_perform_ocr path w) = Ok [])
        /\ (forall data e,
              fs w1 !! path = Some (File data) ->
              ocr_reply w1 tok data = Raise e ->
              fst (_perform_ocr path w) = Ok [])).
Proof.
  split_and!.
  - apply never_raises_run, perform_ocr_never_raises.
  - intros e w' E. by rewrite (perform_ocr_caught _ _ _ _ E).
  - intros tok w1 Ht Hf. split.
    + intros e He.
      by rewrite (perform_ocr_caught _ _ _ _
                    (recognise_unreadable _ _ _ _ _ Ht Hf He)).
    + intros data e Hr He.
      by rewrite (perform_ocr_caught _ _ _ _
                    (recognise_transport _ _ _ _ _ _ Ht Hf Hr He)).
Qed.

Lemma detected_failure_returned temp w1 sentinel :
  detected_failure temp w1 sentinel ->
  exists w3, _perform_ocr temp w1 = (Ok sentinel, w3).
Proof.
  intros [tok w2 Ht Hf|tok w2 data d code Ht Hf Hr He Hc].
  - eexists. by apply perform_ocr_returned, (recognise_unauthenticated _ _ _ _ Ht).
  - destruct (recognise_provider_error _ _ _ _ _ _ _ Ht Hf Hr He Hc)
      as (w3 & E & _).
    eexists. by apply perform_ocr_returned.
Qed.

Lemma detected_failure_text temp w1 sentinel :
  detected_failure temp w1 sentinel -> sentinel ≠ [] /\ strip sentinel ≠ [].
Proof.
  intros [tok w2 Ht Hf|tok w2 data d code Ht Hf Hr He Hc].
  - by vm_compute.
  - unfold provider_error.
    change (py "OCR识别失败: ") with (79%N :: tl (py "OCR识别失败: ")).
    split; [done|]. by apply strip_keeps_text.
Qed.

Lemma chat_unchanged {A} (m : M A) w :
  (forall C, preserves (on_chat C) m) ->
  replies (snd (m w)) = replies w /\ spawned (snd (m w)) = spawned w.
Proof.
  intros Hm.
  by apply (Hm (fun r s => r = replies w /\ s = spawned w) w).
Qed.

(** A run of the handler in which the recognition detects a failure. *)
Lemma sentinel_reply_run event w first rest temp orig w1 sentinel :
  omap as_image (get_messages event) = first :: rest ->
  download_image event (file first) w = (Ok (temp, orig), w1) ->
  temp ≠ [] ->
  detected_failure temp w1 sentinel ->
  exists w3,
    _perform_ocr temp w1 = (Ok sentinel, w3) /\
    replies (snd (ocr_command event w))
    = replies w ++ [py "图片中的文字内容：" ++ NL :: sentinel].
Proof.
  intros Hi Hd Ht Hs.
  destruct (detected_failure_returned _ _ _ Hs) as [w3 E].
  destruct (detected_failure_text _ _ _ Hs) as [Hne Hstrip].
  exists w3. split; [done|]. unfold ocr_command.
  rewrite (ocr_command_recognized _ _ _ _ _ _ _ _ _ _ Hi Hd Ht E). cbn [snd].
  rewrite replies_emit_reply, replies_schedule.
  unfold reply_for. rewrite (str_truthy_true _ Hstrip).
  destruct (chat_unchanged (_perform_ocr temp) w1
              (fun C => perform_ocr_chat C temp)) as [Hp _].
  destruct (chat_unchanged (download_image event (file first)) w
              (fun C => download_image_chat C event (file first))) as [Hr _].
  rewrite E in Hp. rewrite Hd in Hr. cbn [snd] in *. by rewrite Hp, Hr.
Qed.

(** C5.  When [_perform_ocr] detects a failure itself (no token, or a
    response with an [error_code]), what it returns is a string that is
    not empty, also after [strip()]; the handler takes it for recognised
    text, and the one reply of the run is the success reply around the
    sentinel, not an error reply and not the "no text" reply. *)
Theorem sentinel_sent_as_text event w first rest temp orig w1 sentinel :
  omap as_image (get_messages event) = first :: rest ->
  download_image event (file first) w = (Ok (temp, orig), w1) ->
  temp ≠ [] ->
  detected_failure temp w1 sentinel ->
  fst (_perform_ocr temp w1) = Ok sentinel
  /\ sentinel ≠ [] /\ strip sentinel ≠ []
  /\ reply_for sentinel = py "图片中的文字内容：" ++ NL :: sentinel
  /\ replies (snd (ocr_command event w))
     = replies w ++ [py "图片中的文字内容：" ++ NL :: sentinel].
Proof.
  intros Hi Hd Ht Hs.
  destruct (sentinel_reply_run _ _ _ _ _ _ _ _ Hi Hd Ht Hs) as (w3 & E & Hr).
  destruct (detected_failure_text _ _ _ Hs) as [Hne Hstrip].
  rewrite E. split_and!; try done.
  unfold reply_for. by rewrite (str_truthy_true _ Hstrip).
Qed.

Lemma existing_same_fs w w' p : fs w' = fs w -> existing w' p = existing w p.
Proof. intros E. unfold existing. by rewrite E. Qed.

(** After a download that gave a local path, both artifacts are handed to
    the cleanup, whatever the recognition step returns. *)
Lemma ocr_command_schedules recognize event w first rest temp orig w1 text w3 :
  omap as_image (get_messages event) = first :: rest ->
  download_image event (file first) w = (Ok (temp, orig), w1) ->
  temp ≠ [] ->
  recognize temp w1 = (Ok text, w3) ->
  fs w3 = fs w1 -> spawned w3 = spawned w1 ->
  spawned (snd (ocr_command_with recognize event w))
  = spawned w ++ [[Some temp; orig]].
Proof.
  intros Hi Hd Ht Hr Hfs Hsp.
  rewrite (ocr_command_recognized _ _ _ _ _ _ _ _ _ _ Hi Hd Ht Hr). cbn [snd].
  destruct (download_image_outcome event (file first) w)
    as (t & o & w1' & E & Hcase).
  rewrite Hd in E. injection E as <- <- <-.
  destruct Hcase as [[? _]|(_ & Hex1 & Hex2)]; [done|].
  assert (files_to_delete w3 temp orig = [Some temp; orig]) as ->.
  { unfold files_to_delete. cbn [List.filter].
    by rewrite !(existing_same_fs _ _ _ Hfs), Hex1, Hex2. }
  rewrite spawned_emit_reply. rewrite spawned_schedule by done. rewrite Hsp.
  destruct (chat_unchanged (download_image event (file first)) w
              (fun C => download_image_chat C event (file first))) as [_ Hs].
  rewrite Hd in Hs. cbn [snd] in Hs. by rewrite Hs.
Qed.

(** C7.  When the recognition endpoint answers with an [error_code] and
    an [error_msg], the one reply of the run contains that message: for a
    message that is a string [s] the reply is the heading, a newline,
    ["OCR识别失败: "] and [s] itself, so [s] is a part of it (for another
    value, what [str] makes of it).  The artifacts of the download, the
    temporary copy and the original, are handed to the cleanup all the
    same.  The last part holds for every recognition step that leaves the
    files alone, whatever text it returns: scheduling does not look at the
    outcome of the recognition. *)
Theorem provider_error_reply event w first rest temp orig w1
    tok w2 data d code error_msg :
  omap as_image (get_messages event) = first :: rest ->
  download_image event (file first) w = (Ok (temp, orig), w1) ->
  temp ≠ [] ->
  get_access_token w1 = (Ok tok, w2) -> truthy tok = true ->
  fs w2 !! temp = Some (File data) ->
  ocr_reply w2 tok data = Ok (PDict d) ->
  d !! py "error_code" = Some code ->
  d !! py "error_msg" = Some error_msg ->
  (exists reply,
     replies (snd (ocr_command event w)) = replies w ++ [reply] /\
     str_contains reply (py_str error_msg) = true)
  /\ (forall s, error_msg = PStr s ->
        exists reply,
          replies (snd (ocr_command event w)) = replies w ++ [reply] /\
          reply = py "图片中的文字内容：" ++ NL :: py "OCR识别失败: " ++ s /\
          str_contains reply s = true /\
          exists before after, reply = before ++ s ++ after)
  /\ spawned (snd (ocr_command event w)) = spawned w ++ [[Some temp; orig]]
  /\ (forall recognize text w3,
        recognize temp w1 = (Ok text, w3) ->
        fs w3 = fs w1 -> spawned w3 = spawned w1 ->
        spawned (snd (ocr_command_with recognize event w))
        = spawned w ++ [[Some temp; orig]]).
Proof.
  intros Hi Hd Ht Htok Hf Hr He Hc Hm.
  pose proof (error_code temp w1 tok w2 data d code Htok Hf Hr He Hc) as Hs.
  rewrite Hm in Hs. cbn [default from_option id] in Hs.
  destruct (sentinel_reply_run event w first rest temp orig w1 _ Hi Hd Ht Hs)
    as (w3 & E & Hrep).
  split_and!.
  - eexists. split; [exact Hrep|].
    unfold provider_error.
    pose proof (str_contains_app
                  (py "图片中的文字内容：" ++ NL :: py "OCR识别失败: ")
                  (py_str error_msg) [])
      as Hsub.
    rewrite app_nil_r, <- app_assoc in Hsub. exact Hsub.
  - intros s ->. eexists. split; [exact Hrep|]. split; [reflexivity|].
    unfold provider_error. cbn [py_str]. split.
    + pose proof (str_contains_app
                    (py "图片中的文字内容：" ++ NL :: py "OCR识别失败: ") s [])
        as Hsub.
      rewrite app_nil_r, <- app_assoc in Hsub. exact Hsub.
    + exists (py "图片中的文字内容：" ++ NL :: py "OCR识别失败: "), [].
      by rewrite app_nil_r, <- app_assoc.
  - destruct (chat_unchanged (_perform_ocr temp) w1
                (fun C => perform_ocr_chat C temp)) as [_ Hsp].
    pose proof (perform_ocr_fs (fun m => m = fs w1) temp w1 eq_refl) as Hfs.
    rewrite E in Hsp, Hfs. unfold on_fs in Hfs. cbn [snd] in *.
    by eapply ocr_command_schedules.
  - intros recognize text w3' Hrec Hfs Hsp. by eapply ocr_command_schedules.
Qed.

(** C8.  When the download yields no local path, the handler replies
    ["图片下载失败"] and that is all it does: the world is the one the
    download left, plus the reply, whatever the recognition step is; it is
    not called.  The download yields no local path when no attachment
    carries the file id and whenever an exception is raised inside it. *)
Theorem download_failure_reply recognize event w first rest orig w1 :
  omap as_image (get_messages event) = first :: rest ->
  download_image event (file first) w = (Ok ([], orig), w1) ->
  ocr_command_with recognize event w
  = (Ok tt, emit (EReply (py "图片下载失败")) w1)
  /\ ocr_command event w = (Ok tt, emit (EReply (py "图片下载失败")) w1)
  /\ replies (snd (ocr_command event w)) = replies w ++ [py "图片下载失败"]
  /\ (forall file_id w0,
        find_image (get_messages event) file_id = None ->
        download_image event file_id w0 = (Ok ([], None), w0))
  /\ (forall file_id w0 e w',
        fetch event file_id w0 = (Raise e, w') ->
        fst (download_image event file_id w0) = Ok ([], None)).
Proof.
  intros Hi Hd. split_and!.
  - by eapply ocr_command_download_failed.
  - by eapply ocr_command_download_failed.
  - unfold ocr_command.
    rewrite (ocr_command_download_failed _ _ _ _ _ _ _ Hi Hd). cbn [snd].
    rewrite replies_emit_reply.
    destruct (chat_unchanged (download_image event (file first)) w
                (fun C => download_image_chat C event (file first))) as [Hr _].
    rewrite Hd in Hr. cbn [snd] in Hr. by rewrite Hr.
  - intros file_id w0. apply download_image_not_found.
  - intros file_id w0 e w' E. by rewrite (download_image_caught _ _ _ _ _ E).
Qed.

(** C10.  [cleanup_files] never raises, for any list of paths in any
    world, hence also when it is run a second time.  A path that is null,
    empty or no longer there is skipped without any effect; every listed
    path that exists has its deletion attempted, and every listed file that
    can be deleted is gone afterwards, whatever failed on the other
    paths. *)
Theorem cleanup_files_safe paths w :
  fst (cleanup_files paths w) = Ok tt
  /\ fst (cleanup_files paths (snd (cleanup_files paths w))) = Ok tt
  /\ (forall path w0, existing w0 path = false -> cleanup_one path w0 = (Ok tt, w0))
  /\ (Forall (fun path => existing w path = false) paths ->
      cleanup_files paths w = (Ok tt, emit (ESleep 3) w))
  /\ (forall p, In (Some p) paths -> existing w (Some p) = true ->
                In (EUnlink p) (trace (snd (cleanup_files paths w))))
  /\ (forall p data, In (Some p) paths -> p ≠ [] ->
                     fs w !! p = Some (File data) ->
                     undeletable (env w) p = false ->
                     fs (snd (cleanup_files paths w)) !! p = None).
Proof.
  assert (forall w0, fst (cleanup_files paths w0) = Ok tt) as Hsafe.
  { intros w0. destruct (cleanup_files_never_raises paths w0) as [[] E]. done. }
  split_and!; try apply Hsafe.
  - apply cleanup_one_absent.
  - intros Hall. unfold cleanup_files, sleep. rewrite run_bind.
    by rewrite cleanup_loop_absent.
  - intros p Hin Hex. unfold cleanup_files, sleep. rewrite run_bind.
    by apply cleanup_loop_attempts.
  - intros p data Hin Hp Hf Hu. unfold cleanup_files, sleep. rewrite run_bind.
    by eapply cleanup_loop_deletes.
Qed.

End Claims.


(* ===================================================================== *)
(** * Further properties: the text *)
(* ===================================================================== *)

Lemma split_lines_join l ls :
  no_newline l -> Forall no_newline ls ->
  split_lines (str_join [NL] (l :: ls)) = l :: ls.
Proof.
  intros Hl Hls. revert l Hl.
  induction Hls as [|l' ls Hl' Hls IH]; intros l Hl.
  - simpl. induction Hl as [|c l Hc _ IHl]; [done|].
    simpl. destruct (N.eqb_spec c NL); [done|]. by rewrite IHl.
  - rewrite str_join_cons by done.
    induction Hl as [|c l Hc _ IHl].
    + cbn [app split_lines]. rewrite N.eqb_refl. by rewrite IH.
    + cbn [app split_lines] in *. destruct (N.eqb_spec c NL); [done|].
      by rewrite IHl.
Qed.

Lemma drop_blank_between_no_newline ls :
  Forall no_newline ls -> Forall no_newline (drop_blank_between ls).
Proof.
  induction 1 as [|l ls Hl Hls IH]; [constructor|].
  destruct ls as [|l' ls]; [by repeat constructor|].
  change (drop_blank_between (l :: l' :: ls)) with
    (if blank l then drop_blank_between (l' :: ls)
     else l :: drop_blank_between (l' :: ls)).
  destruct (blank l); [done|by constructor].
Qed.

Lemma drop_blank_between_twice ls :
  drop_blank_between (drop_blank_between ls) = drop_blank_between ls.
Proof.
  induction ls as [|l ls IH]; [done|].
  destruct ls as [|l' ls]; [done|].
  change (drop_blank_between (l :: l' :: ls)) with
    (if blank l then drop_blank_between (l' :: ls)
     else l :: drop_blank_between (l' :: ls)).
  destruct (blank l) eqn:Hb; [done|].
  destruct (drop_blank_between (l' :: ls)) as [|k ks] eqn:E.
  { by apply drop_blank_between_nil in E. }
  change (drop_blank_between (l :: k :: ks)) with
    (if blank l then drop_blank_between (k :: ks)
     else l :: drop_blank_between (k :: ks)).
  by rewrite Hb, IH.
Qed.

(** X1.  Normalising a text that is already normalised changes nothing. *)
Theorem re_sub_blank_idempotent text :
  re_sub_blank (re_sub_blank text) = re_sub_blank text.
Proof.
  rewrite !re_sub_blank_collapse. unfold collapse_blank_lines.
  destruct (split_lines_spec text) as (l & ls & -> & Hl & Hls & _).
  rewrite split_lines_join by (done || by apply drop_blank_between_no_newline).
  by rewrite drop_blank_between_twice.
Qed.

Lemma lstrip_nil_blank s : lstrip s = [] <-> blank s = true.
Proof.
  induction s as [|c s IH]; [done|]. simpl.
  destruct (isspace c); [done|]. split; done.
Qed.

Lemma lstrip_blank s : blank s = false -> blank (lstrip s) = false.
Proof.
  induction s as [|c s IH]; [done|]. simpl.
  destruct (isspace c) eqn:Hc; simpl; [done|]. by rewrite Hc.
Qed.

(** [text.strip()] is empty exactly for a text of white space. *)
Lemma strip_nil_blank s : strip s = [] <-> blank s = true.
Proof.
  unfold strip, rstrip. split.
  - intros E. apply (f_equal (@rev N)) in E. rewrite rev_involutive in E.
    simpl in E. apply lstrip_nil_blank in E. rewrite blank_rev in E.
    destruct (blank s) eqn:Hb; [done|]. by rewrite lstrip_blank in E.
  - intros Hb. apply lstrip_nil_blank in Hb. by rewrite Hb.
Qed.


(** ** The returned text has no blank line

    [strip] works on characters and the collapse on lines; the two are
    brought together on the list of lines. *)

Lemma lstrip_app_blank a b : blank a = true -> lstrip (a ++ b) = lstrip b.
Proof.
  induction a as [|c a IH]; [done|]. simpl.
  destruct (isspace c); [exact IH|done].
Qed.

Lemma lstrip_app_text a b : blank a = false -> lstrip (a ++ b) = lstrip a ++ b.
Proof.
  induction a as [|c a IH]; [done|]. simpl.
  destruct (isspace c); [exact IH|done].
Qed.

(** [lstrip] on the lines of a text: the leading blank lines go, and the
    first line that stays loses its indentation. *)
Fixpoint lstrip_lines (ls : list pystr) : list pystr :=
  match ls with
  | [] => []
  | [l] => [lstrip l]
  | l :: rest => if blank l then lstrip_lines rest else lstrip l :: rest
  end.

Lemma lstrip_lines_cons l k ls :
  lstrip_lines (l :: k :: ls)
  = if blank l then lstrip_lines (k :: ls) else lstrip l :: k :: ls.
Proof. reflexivity. Qed.

Lemma lstrip_newline s : lstrip ([NL] ++ s) = lstrip s.
Proof. reflexivity. Qed.

Lemma lstrip_join ls : lstrip (str_join [NL] ls) = str_join [NL] (lstrip_lines ls).
Proof.
  induction ls as [|l ls IH]; [done|].
  destruct ls as [|k ls]; [done|].
  rewrite str_join_cons by done. rewrite lstrip_lines_cons.
  destruct (blank l) eqn:Hb.
  - rewrite lstrip_app_blank by done. rewrite lstrip_newline. exact IH.
  - rewrite lstrip_app_text by done. reflexivity.
Qed.

Lemma str_join_snoc ls l :
  ls ≠ [] -> str_join [NL] (ls ++ [l]) = str_join [NL] ls ++ NL :: l.
Proof.
  induction ls as [|k ls IH]; [done|]. intros _.
  destruct ls as [|k' ls]; [done|].
  change ((k :: k' :: ls) ++ [l]) with (k :: ((k' :: ls) ++ [l])).
  rewrite !str_join_cons by done. rewrite IH by done.
  by rewrite <- !app_assoc.
Qed.

Lemma rev_join ls :
  rev (str_join [NL] ls) = str_join [NL] (rev (map (@rev N) ls)).
Proof.
  induction ls as [|l ls IH]; [done|].
  destruct ls as [|k ls]; [done|].
  rewrite str_join_cons by done. rewrite !rev_app_distr, IH.
  change (map (@rev N) (l :: k :: ls)) with (rev l :: map (@rev N) (k :: ls)).
  change (rev (rev l :: map (@rev N) (k :: ls)))
    with (rev (map (@rev N) (k :: ls)) ++ [rev l]).
  rewrite str_join_snoc; [by rewrite <- app_assoc|].
  simpl. by destruct (rev (map _ ls)).
Qed.

(** [strip] on the lines of a text. *)
Definition strip_lines (ls : list pystr) : list pystr :=
  rev (map (@rev N) (lstrip_lines (rev (map (@rev N) (lstrip_lines ls))))).

Lemma strip_join ls : strip (str_join [NL] ls) = str_join [NL] (strip_lines ls).
Proof.
  unfold strip, rstrip, strip_lines.
  by rewrite lstrip_join, rev_join, lstrip_join, rev_join.
Qed.

Lemma lstrip_no_newline l : no_newline l -> no_newline (lstrip l).
Proof.
  induction 1 as [|c l Hc Hl IH]; [constructor|]. simpl.
  destruct (isspace c); [done|by constructor].
Qed.

Lemma lstrip_lines_no_newline ls :
  Forall no_newline ls -> Forall no_newline (lstrip_lines ls).
Proof.
  induction 1 as [|l ls Hl Hls IH]; [constructor|].
  destruct ls as [|k ls].
  - repeat constructor. by apply lstrip_no_newline.
  - rewrite lstrip_lines_cons. destruct (blank l); [done|].
    constructor; [by apply lstrip_no_newline|done].
Qed.

Lemma rev_lines_no_newline ls :
  Forall no_newline ls -> Forall no_newline (rev (map (@rev N) ls)).
Proof.
  intros Hls. apply List.Forall_rev, List.Forall_map.
  eapply Forall_impl; [exact Hls|]. intros l Hl. by apply List.Forall_rev.
Qed.

Lemma lstrip_lines_nil ls : lstrip_lines ls = [] -> ls = [].
Proof.
  induction ls as [|l ls IH]; [done|]. destruct ls as [|k ls]; [done|].
  rewrite lstrip_lines_cons. destruct (blank l); [|done].
  intros E. by specialize (IH E).
Qed.

Lemma rev_lines_nil ls : rev (map (@rev N) ls) = [] -> ls = [].
Proof.
  destruct ls as [|l ls]; [done|]. simpl. by destruct (rev (map _ ls)).
Qed.

(** Of the lines the collapse keeps, only the last can be blank. *)
Lemma drop_blank_between_inner ls :
  Forall (fun l => blank l = false) (removelast (drop_blank_between ls)).
Proof.
  induction ls as [|l ls IH]; [constructor|].
  destruct ls as [|k ls]; [constructor|].
  change (drop_blank_between (l :: k :: ls)) with
    (if blank l then drop_blank_between (k :: ls)
     else l :: drop_blank_between (k :: ls)).
  destruct (blank l) eqn:Hb; [done|].
  destruct (drop_blank_between (k :: ls)) as [|d ds] eqn:E.
  { by apply drop_blank_between_nil in E. }
  change (removelast (l :: d :: ds)) with (l :: removelast (d :: ds)).
  by constructor.
Qed.

Lemma Forall_removelast_tail {A} (P : A -> Prop) (a : A) l :
  Forall P (removelast (a :: l)) -> Forall P (removelast l).
Proof.
  destruct l as [|b l]; [constructor|].
  change (removelast (a :: b :: l)) with (a :: removelast (b :: l)).
  by inversion 1.
Qed.

Lemma lstrip_lines_inner ls :
  Forall (fun l => blank l = false) (removelast (tail ls)) ->
  Forall (fun l => blank l = false) (removelast (lstrip_lines ls)).
Proof.
  induction ls as [|l ls IH]; [constructor|].
  destruct ls as [|k ls]; [constructor|]. intros Hin.
  rewrite lstrip_lines_cons. destruct (blank l) eqn:Hb.
  - apply IH. by eapply Forall_removelast_tail.
  - change (removelast (lstrip l :: k :: ls))
      with (lstrip l :: removelast (k :: ls)).
    constructor; [by apply lstrip_blank|done].
Qed.

Lemma tail_rev {A} (l : list A) : tail (rev l) = rev (removelast l).
Proof.
  induction l as [|a l _] using rev_ind; [done|].
  by rewrite removelast_last, rev_app_distr.
Qed.

Lemma removelast_map {A B} (f : A -> B) l :
  removelast (map f l) = map f (removelast l).
Proof.
  induction l as [|a l _] using rev_ind; [done|].
  rewrite List.map_app. cbn [map]. by rewrite !removelast_last.
Qed.

(** When only the first line can be blank, [lstrip] leaves no blank line,
    or nothing at all. *)
Lemma lstrip_lines_text ls :
  Forall (fun l => blank l = false) (tail ls) ->
  Forall (fun l => blank l = false) (lstrip_lines ls)
  \/ str_join [NL] (lstrip_lines ls) = [].
Proof.
  destruct ls as [|l ls]; [by right|]. intros Ht. simpl in Ht.
  destruct ls as [|k ls].
  - simpl. destruct (blank l) eqn:Hb.
    + right. by apply lstrip_nil_blank.
    + left. repeat constructor. by apply lstrip_blank.
  - rewrite lstrip_lines_cons. inversion Ht as [|? ? Hk Hls]; subst.
    left. destruct (blank l) eqn:Hb.
    + destruct ls as [|k' ls].
      * repeat constructor. by apply lstrip_blank.
      * rewrite lstrip_lines_cons, Hk.
        constructor; [by apply lstrip_blank|done].
    + constructor; [by apply lstrip_blank|done].
Qed.

(** X2.  [strip (re_sub_blank text)], the text [_perform_ocr] returns for a
    response with words, has no blank line when it is not empty: none at
    the start, none at the end and none in between. *)
Theorem returned_text_has_no_blank_line text :
  strip (re_sub_blank text) ≠ [] ->
  Forall (fun l => blank l = false) (split_lines (strip (re_sub_blank text))).
Proof.
  rewrite re_sub_blank_collapse. unfold collapse_blank_lines.
  destruct (split_lines_spec text) as (l & ls & -> & Hl & Hls & _).
  rewrite strip_join. intros Hne.
  set (kept := l :: drop_blank_between ls) in *.
  assert (Forall no_newline kept) as Hkept.
  { constructor; [done|by apply drop_blank_between_no_newline]. }
  assert (Forall no_newline (strip_lines kept)) as Hnl.
  { unfold strip_lines.
    by apply rev_lines_no_newline, lstrip_lines_no_newline,
      rev_lines_no_newline, lstrip_lines_no_newline. }
  assert (Forall (fun l => blank l = false) (strip_lines kept)) as Htext.
  { unfold strip_lines in *.
    set (left := lstrip_lines kept) in *.
    assert (Forall (fun l => blank l = false) (removelast left)) as Hleft.
    { apply lstrip_lines_inner. apply drop_blank_between_inner. }
    destruct (lstrip_lines_text (rev (map (@rev N) left))) as [Hall|Hnil].
    - rewrite tail_rev, removelast_map.
      apply List.Forall_rev, List.Forall_map.
      eapply Forall_impl; [exact Hleft|]. intros k Hk. by rewrite blank_rev.
    - apply List.Forall_rev, List.Forall_map.
      eapply Forall_impl; [exact Hall|]. intros k Hk. by rewrite blank_rev.
    - destruct Hne. rewrite <- rev_join, Hnil. done. }
  destruct (strip_lines kept) as [|k ks] eqn:E.
  { apply rev_lines_nil, lstrip_lines_nil, rev_lines_nil, lstrip_lines_nil
      in E. done. }
  inversion Hnl; subst. by rewrite split_lines_join.
Qed.


(* ===================================================================== *)
(** * Further properties: the command handler *)
(* ===================================================================== *)

Lemma str_eqb_refl s : str_eqb s s = true.
Proof. induction s as [|c s IH]; [done|]. simpl. by rewrite N.eqb_refl. Qed.

Section MoreHandler.
Context `{PyRuntime}.

(** X3.  A message without an image: the handler asks for one and does nothing
    else, whatever the recognition step and the platform would do. *)
Theorem ocr_command_without_image recognize event w :
  omap as_image (get_messages event) = [] ->
  ocr_command_with recognize event w
  = (Ok tt, emit (EReply (py "请发送一张包含文字的图片")) w)
  /\ ocr_command event w
     = (Ok tt, emit (EReply (py "请发送一张包含文字的图片")) w).
Proof. intros E. split; by apply ocr_command_no_image. Qed.

(** The first image of the message is the one its own file id finds. *)
Lemma find_first_image messages first rest :
  omap as_image messages = first :: rest ->
  find_image messages (file first) = Some first.
Proof.
  intros E. unfold find_image. rewrite E. simpl. by rewrite str_eqb_refl.
Qed.

(** X4.  Only the first image counts: the handler does on a message with
    several attachments what it does on the message reduced to its first
    image. *)
Theorem ocr_command_first_image_only recognize event w first rest :
  omap as_image (get_messages event) = first :: rest ->
  ocr_command_with recognize event w
  = ocr_command_with recognize
      {| get_messages := [CImage first]; get_image := get_image event |} w.
Proof.
  intros E. unfold ocr_command_with. rewrite E. cbn [get_messages].
  change (omap as_image [CImage first]) with [first].
  unfold download_image, fetch.
  rewrite (find_first_image _ _ _ E). cbn [get_messages].
  by rewrite (find_first_image [CImage first] first []).
Qed.

(** X5.  The reply for a recognised text: the "no text" reply exactly when the
    text is white space only, else the text as it was returned (not
    stripped) behind the heading. *)
Theorem reply_selection recognize event w first rest temp orig w1 text w2 :
  omap as_image (get_messages event) = first :: rest ->
  download_image event (file first) w = (Ok (temp, orig), w1) ->
  temp ≠ [] ->
  recognize temp w1 = (Ok text, w2) ->
  exists w',
    ocr_command_with recognize event w
    = (Ok tt,
       emit (EReply (if blank text
                     then py "未识别到文字，请检查图片清晰度"
                     else py "图片中的文字内容：" ++ NL :: text)) w').
Proof.
  intros Hi Hd Ht Hr.
  rewrite (ocr_command_recognized _ _ _ _ _ _ _ _ _ _ Hi Hd Ht Hr).
  eexists. do 2 f_equal. f_equal. unfold reply_for.
  destruct (blank text) eqn:Hb.
  - apply strip_nil_blank in Hb. by rewrite Hb.
  - destruct (strip text) eqn:Hs; [|done].
    apply strip_nil_blank in Hs. congruence.
Qed.

(** X6.  An exception inside the recognition cannot be told from an image
    without text: the reply is the "no text" reply. *)
Theorem failure_reported_as_no_text event w first rest temp orig w1 e w2 :
  omap as_image (get_messages event) = first :: rest ->
  download_image event (file first) w = (Ok (temp, orig), w1) ->
  temp ≠ [] ->
  recognise temp w1 = (Raise e, w2) ->
  fst (_perform_ocr temp w1) = Ok []
  /\ replies (snd (ocr_command event w))
     = replies w ++ [py "未识别到文字，请检查图片清晰度"].
Proof.
  intros Hi Hd Ht Hr.
  pose proof (perform_ocr_caught _ _ _ _ Hr) as E. rewrite E. split; [done|].
  unfold ocr_command.
  rewrite (ocr_command_recognized _ _ _ _ _ _ _ _ _ _ Hi Hd Ht E). cbn [snd].
  rewrite replies_emit_reply, replies_schedule.
  destruct (chat_unchanged (_perform_ocr temp) w1
              (fun C => perform_ocr_chat C temp)) as [Hp _].
  destruct (chat_unchanged (download_image event (file first)) w
              (fun C => download_image_chat C event (file first))) as [Hq _].
  rewrite E in Hp. rewrite Hd in Hq. cbn [snd] in *. by rewrite Hp, Hq.
Qed.

Lemma not_the_outer_failure (reply : pystr) c rest e_msg :
  reply = c :: rest -> c ≠ 79%N -> reply ≠ py "OCR处理失败: " ++ e_msg.
Proof. intros -> Hc E. vm_compute in E. by injection E as -> _. Qed.

(** X7.  Every invocation of the handler returns normally and sends exactly
    one reply.  Without an image it is the request for one; when the
    download of the first image gave no local path it is the download
    failure; otherwise it is made of the very text [_perform_ocr] returned
    for the temporary copy: the "no text" reply when that text is white
    space only, else the heading, a newline and that text.  It is never
    the reply of the outer [except] branch. *)
Theorem ocr_command_one_reply event w :
  exists reply w',
    ocr_command event w = (Ok tt, w') /\
    replies w' = replies w ++ [reply] /\
    (forall e_msg, reply ≠ py "OCR处理失败: " ++ e_msg) /\
    match omap as_image (get_messages event) with
    | [] => reply = py "请发送一张包含文字的图片"
    | first :: _ =>
      exists temp orig w1,
        download_image event (file first) w = (Ok (temp, orig), w1) /\
        match temp with
        | [] => reply = py "图片下载失败"
        | _ :: _ =>
          exists text w2,
            _perform_ocr temp w1 = (Ok text, w2) /\
            reply = if blank text
                    then py "未识别到文字，请检查图片清晰度"
                    else py "图片中的文字内容：" ++ NL :: text
        end
    end.
Proof.
  destruct (omap as_image (get_messages event)) as [|first rest] eqn:Hi.
  - do 2 eexists. unfold ocr_command.
    rewrite (ocr_command_no_image _ _ _ Hi). split_and!; [done|done| |done].
    intros e_msg. by eapply not_the_outer_failure; [vm_compute; reflexivity|].
  - destruct (download_image_outcome event (file first) w)
      as (temp & orig & w1 & Hd & Hcase).
    destruct (chat_unchanged (download_image event (file first)) w
                (fun C => download_image_chat C event (file first))) as [Hq _].
    rewrite Hd in Hq. cbn [snd] in Hq.
    destruct Hcase as [[-> ->]|(Ht & _)].
    + do 2 eexists. unfold ocr_command.
      rewrite (ocr_command_download_failed _ _ _ _ _ _ _ Hi Hd).
      split_and!; [done| | |].
      * by rewrite replies_emit_reply, Hq.
      * intros e_msg.
        by eapply not_the_outer_failure; [vm_compute; reflexivity|].
      * by exists [], None, w1.
    + destruct (never_raises_run _ w1 (perform_ocr_never_raises temp))
        as (text & w2 & Hr).
      destruct (chat_unchanged (_perform_ocr temp) w1
                  (fun C => perform_ocr_chat C temp)) as [Hp _].
      rewrite Hr in Hp. cbn [snd] in Hp.
      assert (reply_for text
              = if blank text
                then py "未识别到文字，请检查图片清晰度"
                else py "图片中的文字内容：" ++ NL :: text) as Hreply.
      { unfold reply_for. destruct (blank text) eqn:Hb.
        - apply strip_nil_blank in Hb. by rewrite Hb.
        - destruct (strip text) eqn:Hs; [|done].
          apply strip_nil_blank in Hs. congruence. }
      exists (reply_for text). eexists. unfold ocr_command.
      rewrite (ocr_command_recognized _ _ _ _ _ _ _ _ _ _ Hi Hd Ht Hr).
      split_and!; [done| | |].
      * by rewrite replies_emit_reply, replies_schedule, Hp, Hq.
      * intros e_msg. rewrite Hreply.
        destruct (blank text);
          by eapply not_the_outer_failure; [vm_compute; reflexivity|].
      * exists temp, orig, w1. split; [done|].
        destruct temp as [|c temp']; [done|]. by exists text, w2.
Qed.

End MoreHandler.


(* ===================================================================== *)
(** * Further properties: the token *)
(* ===================================================================== *)

(** The configuration an instance was built from. *)
Definition config_of (s : OCRPlugin) : pystr * pystr * pystr * pystr * pystr :=
  (temp_dir s, api_key s, secret_key s, token_url s, ocr_url s).

Section MoreToken.
Context `{PyRuntime}.

(** With the keys set, a token cached and not expired, the call answers
    from the cache. *)
Lemma get_access_token_warm w :
  configured (self w) -> cached w -> fresh w ->
  get_access_token w = (Ok (access_token (self w)), set_ticks (S (ticks w)) w).
Proof.
  intros Hc Hk Hf.
  unfold get_access_token, mbind, M_bind, get_self, time_time.
  rewrite (configured_test _ Hc). unfold cached, fresh, now in *.
  rewrite Hk. cbn. by rewrite Hf.
Qed.

(** The world a successful exchange leaves. *)
Lemma request_token_world w d tok expires_in x :
  net (env w) (length (requests w)) (token_request (self w)) = Ok (PDict d) ->
  d !! py "access_token" = Some tok ->
  d !! py "expires_in" = Some expires_in ->
  as_float expires_in = Ok x ->
  exists w',
    request_token (self w) w = (Ok tok, w') /\
    access_token (self w') = tok /\
    token_expire_time (self w') = NFloat (now w + x - 300)%float /\
    config_of (self w') = config_of (self w) /\
    env w' = env w /\ ticks w' = S (ticks w) /\ fs w' = fs w /\
    requests w' = requests w ++ [token_request (self w)].
Proof.
  intros Hr Htok Hexp Hx. eexists.
  unfold request_token, mbind, M_bind, post, lift. cbn beta.
  unfold token_request in Hr. rewrite Hr. cbn -[py].
  rewrite Htok, Hexp. cbn -[py].
  unfold float_add. rewrite Hx.
  split; [reflexivity|]. split_and!; reflexivity.
Qed.

(** X8.  A refresh followed by a second call before the new expiry time: the
    second call returns the same token and sends nothing. *)
Theorem get_access_token_twice w d tok expires_in x :
  configured (self w) -> stale w ->
  token_reply w = Ok (PDict d) ->
  d !! py "access_token" = Some tok ->
  d !! py "expires_in" = Some expires_in ->
  as_float expires_in = Ok x ->
  truthy tok = true ->
  PrimFloat.ltb (clock (env w) (S (ticks (checked w))))
                (now (checked w) + x - 300) = true ->
  exists w1 w2,
    get_access_token w = (Ok tok, w1) /\
    get_access_token w1 = (Ok tok, w2) /\
    requests w2 = requests w1 /\
    requests w1 = requests w ++ [token_request (self w)] /\
    self w2 = self w1.
Proof.
  intros Hc Hst Hr Htok Hexp Hx Htrue Hlt.
  rewrite (get_access_token_stale _ Hc Hst).
  unfold token_reply in Hr.
  rewrite <- (self_checked w), <- (requests_checked w), <- (env_checked w) in Hr.
  destruct (request_token_world _ _ _ _ _ Hr Htok Hexp Hx)
    as (w1 & E & Ht & Hexpire & Hcfg & Henv & Hticks & _ & Hreq).
  rewrite self_checked in E, Hcfg. rewrite requests_checked, self_checked in Hreq.
  rewrite env_checked in Henv.
  exists w1, (set_ticks (S (ticks w1)) w1).
  rewrite (run_try_ok _ _ _ _ _ E).
  assert (configured (self w1)) as Hc1.
  { unfold configured, config_of in *. destruct Hc. by injection Hcfg as _ -> -> _ _. }
  assert (cached w1) as Hk1 by (unfold cached; by rewrite Ht).
  assert (fresh w1) as Hf1.
  { unfold fresh, now. rewrite Hexpire, Henv, Hticks. exact Hlt. }
  rewrite (get_access_token_warm _ Hc1 Hk1 Hf1), Ht.
  split_and!; done.
Qed.

(** X9.  A response with a token whose life time is missing or is not a number:
    the token is already stored when the expiry computation raises, so the
    call returns [None] with the new token in the cache and the old expiry
    time. *)
Theorem get_access_token_bad_lifetime w d tok :
  configured (self w) -> stale w ->
  token_reply w = Ok (PDict d) ->
  d !! py "access_token" = Some tok ->
  (d !! py "expires_in" = None \/
   exists v e, d !! py "expires_in" = Some v /\ as_float v = Raise e) ->
  exists w',
    get_access_token w = (Ok PNone, w') /\
    access_token (self w') = tok /\
    token_expire_time (self w') = token_expire_time (self w).
Proof.
  intros Hc Hst Hr Htok Hbad.
  rewrite (get_access_token_stale _ Hc Hst).
  unfold token_reply, token_request in Hr.
  rewrite <- (requests_checked w), <- (env_checked w) in Hr.
  unfold try_except, request_token, mbind, M_bind, post, lift. cbn beta.
  rewrite Hr. cbn -[py]. rewrite Htok.
  destruct Hbad as [Hexp|(v & e & Hexp & Hv)]; rewrite Hexp; cbn -[py].
  - eexists. split; [reflexivity|]. cbn -[py].
    split; [reflexivity|]. by rewrite self_checked.
  - unfold float_add. rewrite Hv. cbn -[py].
    eexists. split; [reflexivity|]. cbn -[py].
    split; [reflexivity|]. by rewrite self_checked.
Qed.

(** Whatever the token endpoint answers, the exchange under its handler
    sends the token request and nothing else. *)
Lemma request_token_sends s handler_msg w :
  requests (snd (try_except (request_token s)
                   (fun e => log ERROR (handler_msg e);; mret PNone) w))
  = requests w ++ [token_request s].
Proof.
  unfold try_except, request_token, mbind, M_bind, post, lift, log.
  cbn beta. unfold token_request.
  destruct (net _ _ _) as [r|e]; [|done].
  destruct (py_contains _ r) as [[]|]; cbn -[py]; [| |done].
  - destruct (py_getitem r _); cbn -[py]; [|done].
    destruct (py_getitem r _); cbn -[py]; [|done].
    destruct (float_add _ _); done.
  - destruct (py_get r _ _); done.
Qed.

Lemma get_access_token_stale_sends w :
  configured (self w) -> stale w ->
  requests (snd (get_access_token w)) = requests w ++ [token_request (self w)].
Proof.
  intros Hc Hst. rewrite (get_access_token_stale _ Hc Hst).
  rewrite <- (requests_checked w). apply request_token_sends.
Qed.

(** X10.  A call sends a request exactly when the keys are set and nothing fresh
    is cached; it then sends one request, whatever the answer is: to the
    token URL, with the form fields [grant_type=client_credentials],
    [client_id] (the API key) and [client_secret] (the secret key), in
    this order. *)
Theorem get_access_token_one_request w :
  (configured (self w) /\ stale w ->
   requests (snd (get_access_token w))
   = requests w ++
     [{| req_url := token_url (self w);
         req_data := [(py "grant_type", py "client_credentials");
                      (py "client_id", api_key (self w));
                      (py "client_secret", secret_key (self w))] |}])
  /\ (~ (configured (self w) /\ stale w) ->
      requests (snd (get_access_token w)) = requests w).
Proof.
  split.
  - intros [Hc Hst]. exact (get_access_token_stale_sends w Hc Hst).
  - intros Hn. destruct (configured_dec (self w)) as [Hc|Hk].
    2: { by rewrite (get_access_token_without_keys _ Hk). }
    destruct (truthy (access_token (self w))) eqn:Hk.
    + destruct (float_lt (now w) (token_expire_time (self w))) eqn:Hf.
      * by rewrite (get_access_token_warm _ Hc Hk Hf).
      * destruct Hn. split; [done|by right].
    + destruct Hn. split; [done|by left].
Qed.

End MoreToken.


(* ===================================================================== *)
(** * Further properties: what the methods leave alone *)
(* ===================================================================== *)

(** What no primitive changes: the environment. *)
Definition on_env (Q : Env -> Prop) (w : World) : Prop := Q (env w).

Ltac prim_env :=
  let w := fresh "w" in
  let Hw := fresh "Hw" in
  intros w Hw; unfold on_env in *; cbn;
  repeat match goal with
         | |- context [match ?x with _ => _ end] => destruct x eqn:?; cbn
         end;
  try done.

Section EnvPrimitives.
Context (Q : Env -> Prop).

Lemma get_self_env : preserves (on_env Q) get_self.
Proof. prim_env. Qed.
Lemma time_time_env : preserves (on_env Q) time_time.
Proof. prim_env. Qed.
Lemma post_env url data : preserves (on_env Q) (post url data).
Proof. prim_env. Qed.
Lemma log_env l msg : preserves (on_env Q) (log l msg).
Proof. prim_env. Qed.
Lemma yield_reply_env msg : preserves (on_env Q) (yield_reply msg).
Proof. prim_env. Qed.
Lemma create_task_env paths : preserves (on_env Q) (create_task paths).
Proof. prim_env. Qed.
Lemma open_read_env path : preserves (on_env Q) (open_read path).
Proof. unfold open_read. prim_env. Qed.
Lemma open_write_env path data : preserves (on_env Q) (open_write path data).
Proof. unfold open_write. prim_env. Qed.
Lemma path_exists_env path : preserves (on_env Q) (path_exists path).
Proof. prim_env. Qed.
Lemma platform_call_env {A} (f : gmap pystr node -> result A * gmap pystr node) :
  preserves (on_env Q) (platform_call f).
Proof. unfold platform_call. prim_env. Qed.
Lemma set_access_token_env v : preserves (on_env Q) (set_access_token v).
Proof. prim_env. Qed.
Lemma set_token_expire_time_env t :
  preserves (on_env Q) (set_token_expire_time t).
Proof. prim_env. Qed.

End EnvPrimitives.

#[global] Hint Resolve get_self_env time_time_env post_env log_env
  yield_reply_env create_task_env open_read_env open_write_env
  path_exists_env platform_call_env set_access_token_env
  set_token_expire_time_env : keeps.

Section Untouched.
Context `{PyRuntime}.

Lemma set_access_token_config cfg v :
  preserves (on_self (fun s => config_of s = cfg)) (set_access_token v).
Proof. by intros w Hw. Qed.

Lemma set_token_expire_time_config cfg t :
  preserves (on_self (fun s => config_of s = cfg)) (set_token_expire_time t).
Proof. by intros w Hw. Qed.

Lemma get_access_token_config cfg :
  preserves (on_self (fun s => config_of s = cfg)) get_access_token.
Proof.
  unfold get_access_token, request_token.
  pose proof (set_access_token_config cfg).
  pose proof (set_token_expire_time_config cfg).
  keeps.
Qed.

Lemma cleanup_loop_config cfg paths :
  preserves (on_self (fun s => config_of s = cfg)) (cleanup_loop paths).
Proof. apply cleanup_loop_inv. Qed.

(** X11.  No call on the plugin object changes what it was configured with:
    the two keys, the two URLs and the temporary directory. *)
Theorem config_is_immutable c w :
  config_of (self (run c w)) = config_of (self w).
Proof.
  pose proof (get_access_token_config (config_of (self w))) as Hg.
  assert (forall A (m : M A),
            preserves (on_self (fun s => config_of s = config_of (self w))) m ->
            config_of (self (snd (m w))) = config_of (self w)) as Hrun.
  { intros A m Hm. by apply (Hm w). }
  destruct c; cbn [run]; apply Hrun.
  - unfold initialize. keeps.
  - done.
  - unfold download_image, fetch, read_attachment, save_copy. keeps.
  - unfold _perform_ocr, recognise. keeps.
  - apply cleanup_files_inv.
  - unfold ocr_command, ocr_command_with, _perform_ocr, recognise,
      download_image, fetch, read_attachment, save_copy. keeps.
  - unfold terminate. keeps.
Qed.

Lemma get_access_token_env Q : preserves (on_env Q) get_access_token.
Proof. unfold get_access_token, request_token. keeps. Qed.

Lemma perform_ocr_env Q path : preserves (on_env Q) (_perform_ocr path).
Proof.
  unfold _perform_ocr, recognise. pose proof (get_access_token_env Q). keeps.
Qed.

(** X12.  The recognition reads: it writes and deletes no file, sends no reply
    and hands nothing to the event loop. *)
Theorem perform_ocr_only_reads path w :
  fs (snd (_perform_ocr path w)) = fs w
  /\ replies (snd (_perform_ocr path w)) = replies w
  /\ spawned (snd (_perform_ocr path w)) = spawned w.
Proof.
  split.
  - apply (perform_ocr_fs (fun m => m = fs w) path w eq_refl).
  - apply (chat_unchanged (_perform_ocr path) w).
    intros C. apply perform_ocr_chat.
Qed.

(** X13.  Without both keys the recognition gives up before it looks at the
    image: the result is the authentication sentinel, for any path, and
    the world is exactly as it was. *)
Theorem perform_ocr_without_keys path w :
  api_key (self w) = [] \/ secret_key (self w) = [] ->
  _perform_ocr path w = (Ok (py "OCR服务认证失败"), w).
Proof.
  intros Hk. apply perform_ocr_returned.
  apply (recognise_unauthenticated _ _ PNone w); [|done].
  by apply get_access_token_without_keys.
Qed.

(** X14.  [initialize] never raises; without both keys it only writes its log
    line, and with them it does what [get_access_token] does after that
    line. *)
Theorem initialize_fetches_token w :
  fst (initialize w) = Ok tt
  /\ (api_key (self w) = [] \/ secret_key (self w) = [] ->
      initialize w = (Ok tt, emit (ELog INFO (py "百度OCR文字识别")) w))
  /\ (configured (self w) ->
      snd (initialize w)
      = snd (get_access_token (emit (ELog INFO (py "百度OCR文字识别")) w))).
Proof.
  assert (initialize w
          = (if str_truthy (api_key (self w)) && str_truthy (secret_key (self w))
             then get_access_token ≫= (fun _ => mret tt) else mret tt)
              (emit (ELog INFO (py "百度OCR文字识别")) w)) as E by reflexivity.
  rewrite E. split_and!.
  - destruct (str_truthy (api_key (self w)) && str_truthy (secret_key (self w)));
      [|done].
    rewrite run_bind.
    destruct (never_raises_run _ (emit (ELog INFO (py "百度OCR文字识别")) w)
                get_access_token_never_raises) as (a & w' & ->). done.
  - intros [-> | ->]; [done|]. by rewrite andb_false_r.
  - intros [Ha Hs]. rewrite !str_truthy_true by done. cbn [andb].
    rewrite run_bind. by destruct (get_access_token _) as [[?|?] ?].
Qed.

End Untouched.


(* ===================================================================== *)
(** * Further properties: download and cleanup *)
(* ===================================================================== *)

Section MoreFiles.
Context `{PyRuntime}.

(** Reading the attachment reads no clock and leaves the plugin object
    alone. *)
Lemma read_attachment_world event file_id image_obj w r w' :
  read_attachment event file_id image_obj w = (r, w') ->
  self w' = self w /\ ticks w' = ticks w /\ env w' = env w.
Proof.
  unfold read_attachment, mbind, M_bind, platform_call, lift, path_exists,
    open_read.
  destruct (convert_to_file_path image_obj (fs w)) as [[file_path|e] m];
    [|by intros [= <- <-]].
  destruct (str_truthy file_path) eqn:Htr; cbn -[py].
  - destruct (m !! file_path) as [[d|]|] eqn:Hm; cbn -[py].
    + rewrite Hm. by intros [= <- <-].
    + rewrite Hm. by intros [= <- <-].
    + destruct (get_image event file_id m) as [[result|e] m'];
        cbn -[py]; [|by intros [= <- <-]].
      destruct (py_get result _ _) as [fp|e]; cbn -[py]; [|by intros [= <- <-]].
      destruct (truthy fp) eqn:Hfp; cbn -[py]; [|by intros [= <- <-]].
      destruct (as_path fp) as [q|e] eqn:Hq; cbn -[py]; [|by intros [= <- <-]].
      destruct (m' !! q) as [[d|]|] eqn:Hq'; cbn -[py]; by intros [= <- <-].
  - destruct (get_image event file_id m) as [[result|e] m'];
      cbn -[py]; [|by intros [= <- <-]].
    destruct (py_get result _ _) as [fp|e]; cbn -[py]; [|by intros [= <- <-]].
    destruct (truthy fp) eqn:Hfp; cbn -[py]; [|by intros [= <- <-]].
    destruct (as_path fp) as [q|e] eqn:Hq; cbn -[py]; [|by intros [= <- <-]].
    destruct (m' !! q) as [[d|]|] eqn:Hq'; cbn -[py]; by intros [= <- <-].
Qed.

Lemma download_image_copy_made event file_id w temp orig w1 :
  download_image event file_id w = (Ok (temp, orig), w1) ->
  temp ≠ [] ->
  exists p data n,
    orig = Some p /\ p ≠ [] /\
    fs w1 !! temp = Some (File data) /\
    fs w1 !! p = Some (File data) /\
    int_of_float (now w) = Ok n /\
    temp = path_join (temp_dir (self w)) (py "ocr_" ++ str_of_int n ++ py ".jpg").
Proof.
  unfold download_image, fetch, try_except.
  destruct (find_image _ _) as [image_obj|]; [|by intros [= <- <- <-]].
  rewrite run_bind.
  destruct (read_attachment event file_id image_obj w)
    as [[[[p data]|]|e] w'] eqn:Hread; try by intros [= <- <- <-].
  destruct (read_attachment_world _ _ _ _ _ _ Hread) as (Hs & Ht & He).
  apply read_attachment_ok in Hread as [Hp Hfs].
  unfold save_copy, mbind, M_bind, get_self, time_time, lift, open_write.
  unfold now. rewrite <- Hs, <- Ht, <- He.
  destruct (int_of_float _) as [n|e]; cbn -[py path_join];
    [|by intros [= <- <- <-]].
  set (t := path_join _ _).
  assert (forall w0,
            (Ok (t, Some p), set_fs (<[t := File data]> (fs w')) w0)
            = (Ok (temp, orig), w1) ->
            temp ≠ [] ->
            exists p0 data0 n0,
              orig = Some p0 /\ p0 ≠ [] /\ fs w1 !! temp = Some (File data0) /\
              fs w1 !! p0 = Some (File data0) /\ Ok n = Ok n0 /\
              temp = path_join (temp_dir (self w'))
                       (py "ocr_" ++ str_of_int n0 ++ py ".jpg"))
    as Hdone.
  { intros w0 [= <- <- <-] _. exists p, data, n. cbn -[py path_join].
    split_and!; try done.
    - by rewrite lookup_insert_eq.
    - destruct (decide (t = p)) as [->|Hne].
      + by rewrite lookup_insert_eq.
      + by rewrite lookup_insert_ne. }
  destruct (fs w' !! t) as [[d|]|]; cbn -[py path_join];
    [apply Hdone|by intros [= <- <- <-]|apply Hdone].
Qed.

(** X15.  A download that gave a local path made a copy: the temporary file
    holds the bytes of the original, which is still there, and it is named
    after the temporary directory and the second the clock showed. *)
Theorem download_image_copies event file_id w temp orig w1 :
  download_image event file_id w = (Ok (temp, orig), w1) ->
  temp ≠ [] ->
  exists p data n,
    orig = Some p /\ p ≠ [] /\
    fs w1 !! temp = Some (File data) /\
    fs w1 !! p = Some (File data) /\
    int_of_float (now w) = Ok n /\
    temp = path_join (temp_dir (self w)) (py "ocr_" ++ str_of_int n ++ py ".jpg").
Proof. apply download_image_copy_made. Qed.

Lemma cleanup_loop_other paths w q :
  ~ In (Some q) paths ->
  fs (snd (cleanup_loop paths w)) !! q = fs w !! q.
Proof.
  revert w. induction paths as [|path paths IH]; intros w Hq; [done|].
  simpl. destruct (cleanup_one_run path w) as [w' E].
  rewrite (run_bind_ok _ _ _ _ _ E).
  rewrite IH by (intros ?; apply Hq; by right).
  destruct (cleanup_one_other path w q) as [Hfs _].
  { intros ->. apply Hq. by left. }
  by rewrite E in Hfs.
Qed.

Lemma unlink_chat C path : preserves (on_chat C) (unlink path).
Proof. unfold unlink. prim. Qed.

Lemma cleanup_one_chat Q path : preserves (on_chat Q) (cleanup_one path).
Proof. unfold cleanup_one. pose proof (unlink_chat Q). keeps. Qed.

Lemma cleanup_loop_chat Q paths : preserves (on_chat Q) (cleanup_loop paths).
Proof.
  induction paths as [|path paths IH]; simpl; [keeps|].
  pose proof (cleanup_one_chat Q path). keeps.
Qed.

Lemma cleanup_files_chat Q paths : preserves (on_chat Q) (cleanup_files paths).
Proof. unfold cleanup_files. pose proof (cleanup_loop_chat Q paths). keeps. Qed.

(** X16.  The cleanup touches the paths it was given and nothing else: a path
    that is not in the list is afterwards what it was before, no path
    comes into being, the plugin object is as it was, and nothing is said
    in the chat and no task is started. *)
Theorem cleanup_files_only_listed paths w q :
  (~ In (Some q) paths ->
   fs (snd (cleanup_files paths w)) !! q = fs w !! q)
  /\ (fs w !! q = None -> fs (snd (cleanup_files paths w)) !! q = None)
  /\ self (snd (cleanup_files paths w)) = self w
  /\ replies (snd (cleanup_files paths w)) = replies w
  /\ spawned (snd (cleanup_files paths w)) = spawned w.
Proof.
  pose proof (cleanup_files_inv (fun s => s = self w) paths w eq_refl) as Hs.
  pose proof (cleanup_files_chat
                (fun r t => r = replies w /\ t = spawned w) paths w
                (conj eq_refl eq_refl)) as [Hr Ht].
  split_and!; try done.
  - intros Hq.
    change (cleanup_files paths w) with (cleanup_loop paths (emit (ESleep 3) w)).
    by rewrite cleanup_loop_other.
  - intros Hq.
    change (cleanup_files paths w) with (cleanup_loop paths (emit (ESleep 3) w)).
    by apply cleanup_loop_gone.
Qed.

End MoreFiles.


(* ===================================================================== *)
(** * Further properties: from the command to the cleanup, and the start *)
(* ===================================================================== *)

Section MoreLife.
Context `{PyRuntime}.

Lemma download_image_env Q event file_id :
  preserves (on_env Q) (download_image event file_id).
Proof. unfold download_image, fetch, read_attachment, save_copy. keeps. Qed.

Lemma schedule_fs files w : fs (schedule files w) = fs w.
Proof. by destruct files. Qed.

Lemma schedule_env files w : env (schedule files w) = env w.
Proof. by destruct files. Qed.

(** X17.  The command leaves nothing behind: after a download that gave a local
    path, the task the handler starts is the cleanup of the temporary copy
    and of the platform's original, and when that task runs on the world
    the handler left, each of the two that can be deleted is gone, whatever
    the recognition did. *)
Theorem ocr_command_artifacts_removed event w first rest temp orig w1 :
  omap as_image (get_messages event) = first :: rest ->
  download_image event (file first) w = (Ok (temp, orig), w1) ->
  temp ≠ [] ->
  exists p,
    orig = Some p /\
    spawned (snd (ocr_command event w)) = spawned w ++ [[Some temp; Some p]] /\
    (undeletable (env w) temp = false ->
     fs (snd (cleanup_files [Some temp; Some p] (snd (ocr_command event w))))
       !! temp = None) /\
    (undeletable (env w) p = false ->
     fs (snd (cleanup_files [Some temp; Some p] (snd (ocr_command event w))))
       !! p = None).
Proof.
  intros Hi Hd Ht.
  destruct (never_raises_run (_perform_ocr temp) w1
              (perform_ocr_never_raises temp)) as (text & w2 & Hr).
  pose proof (perform_ocr_fs (fun m => m = fs w1) temp w1 eq_refl) as Hfs.
  pose proof (perform_ocr_env (fun e => e = env w1) temp w1 eq_refl) as Henv.
  pose proof (download_image_env (fun e => e = env w) event (file first) w
                eq_refl) as Henv1.
  destruct (chat_unchanged (_perform_ocr temp) w1
              (fun C => perform_ocr_chat C temp)) as [_ Hsp].
  rewrite Hr in Hfs, Henv, Hsp. rewrite Hd in Henv1.
  unfold on_fs, on_env in *. cbn [snd] in *.
  destruct (download_image_copy_made _ _ _ _ _ _ Hd Ht)
    as (p & data & n & -> & Hp & Hft & Hfp & _ & _).
  exists p. split; [done|]. split.
  { unfold ocr_command. by eapply ocr_command_schedules. }
  unfold ocr_command.
  rewrite (ocr_command_recognized _ _ _ _ _ _ _ _ _ _ Hi Hd Ht Hr). cbn [snd].
  set (w' := emit _ (schedule _ w2)).
  assert (fs w' = fs w1) as Hfs'.
  { unfold w'. cbn. by rewrite schedule_fs. }
  assert (env w' = env w) as Henv'.
  { unfold w'. cbn. rewrite schedule_env. congruence. }
  clearbody w'.
  change (cleanup_files [Some temp; Some p] w')
    with (cleanup_loop [Some temp; Some p] (emit (ESleep 3) w')).
  split; intros Hu.
  - apply (cleanup_loop_deletes _ _ temp data); [by left|done| |].
    + cbn. by rewrite Hfs'.
    + cbn. by rewrite Henv'.
  - apply (cleanup_loop_deletes _ _ p data); [by right; left|done| |].
    + cbn. by rewrite Hfs'.
    + cbn. by rewrite Henv'.
Qed.

(** X18.  An object that [__init__] has just built has its temporary directory,
    has sent nothing and holds no token: with the keys set, its first
    call of [get_access_token] goes to the token endpoint, once; without
    them it returns [None] and sends nothing. *)
Theorem init_then_first_token tmp config w0 w :
  __init__ tmp config w0 = (Ok tt, w) ->
  temp_dir (self w) = path_join tmp (py "astrbot_ocr")
  /\ fs w !! temp_dir (self w) = Some Dir
  /\ requests w = requests w0
  /\ (configured (self w) ->
      requests (snd (get_access_token w))
      = requests w0 ++ [token_request (self w)])
  /\ (~ configured (self w) -> get_access_token w = (Ok PNone, w)).
Proof.
  intros E.
  assert (temp_dir (self w) = path_join tmp (py "astrbot_ocr")
          /\ fs w !! temp_dir (self w) = Some Dir
          /\ requests w = requests w0
          /\ access_token (self w) = PNone) as (Hd & Hf & Hr & Ht).
  { revert E. unfold __init__, mbind, M_bind, makedirs, log.
    destruct (fs w0 !! _) as [[?|]|] eqn:Hdir; cbn -[py path_join]; [done| |];
      destruct (_ || _); intros [= <-]; cbn -[py path_join];
      split_and!; try done.
    all: by rewrite lookup_insert_eq. }
  split_and!; try done.
  - intros Hc. rewrite <- Hr. apply get_access_token_stale_sends; [done|].
    left. by rewrite Ht.
  - intros Hn. apply get_access_token_without_keys.
    destruct (configured_dec (self w)) as [Hc|Hk]; done.
Qed.

End MoreLife.


(* ===================================================================== *)
(** * Base64, read back *)
(* ===================================================================== *)

(** The value of a character of the base64 alphabet (RFC 4648, table 1);
    [=] is not one of them. *)
Definition b64_value (c : N) : option N :=
  (if (65 <=? c) && (c <=? 90) then Some (c - 65)
   else if (97 <=? c) && (c <=? 122) then Some (c - 97 + 26)
   else if (48 <=? c) && (c <=? 57) then Some (c - 48 + 52)
   else if c =? 43 then Some 62
   else if c =? 47 then Some 63
   else None)%N.

(** The bytes of one group of four characters, of which the last one or
    two may be padding; the bits that padding leaves unused must be zero. *)
Definition b64_group (c1 c2 c3 c4 : N) : option (list Byte.byte) :=
  match b64_value c1, b64_value c2 with
  | Some v1, Some v2 =>
    match Byte.of_N (v1 * 4 + v2 / 16) with
    | Some a =>
      if (c4 =? 61)%N then
        if (c3 =? 61)%N then
          if (v2 mod 16 =? 0)%N then Some [a] else None
        else
          match b64_value c3 with
          | Some v3 =>
            match Byte.of_N (v2 mod 16 * 16 + v3 / 4) with
            | Some b => if (v3 mod 4 =? 0)%N then Some [a; b] else None
            | None => None
            end
          | None => None
          end
      else
        match b64_value c3, b64_value c4 with
        | Some v3, Some v4 =>
          match Byte.of_N (v2 mod 16 * 16 + v3 / 4),
                Byte.of_N (v3 mod 4 * 64 + v4) with
          | Some b, Some c => Some [a; b; c]
          | _, _ => None
          end
        | _, _ => None
        end
    | None => None
    end
  | _, _ => None
  end.

(** The strict decoder: groups of four characters, padding in the last
    group only. *)
Fixpoint b64decode (s : pystr) : option (list Byte.byte) :=
  match s with
  | [] => Some []
  | c1 :: c2 :: c3 :: c4 :: rest =>
    match b64_group c1 c2 c3 c4 with
    | Some bytes =>
      match rest with
      | [] => Some bytes
      | _ =>
        if (c4 =? 61)%N then None
        else match b64decode rest with
             | Some more => Some (bytes ++ more)
             | None => None
             end
      end
    | None => None
    end
  | _ => None
  end.

Lemma b64_value_char v : (v < 64)%N -> b64_value (b64_char v) = Some v.
Proof.
  intros Hv. unfold b64_value, b64_char.
  repeat match goal with
         | |- context [(?a <? ?b)%N] => destruct (N.ltb_spec a b)
         | |- context [(?a <=? ?b)%N] => destruct (N.leb_spec a b)
         | |- context [(?a =? ?b)%N] => destruct (N.eqb_spec a b)
         end; cbn [andb]; try lia; f_equal; lia.
Qed.

Lemma b64_char_value c v : b64_value c = Some v -> (v < 64)%N /\ b64_char v = c.
Proof.
  unfold b64_value, b64_char.
  repeat match goal with
         | |- context [(?a <=? ?b)%N] => destruct (N.leb_spec a b)
         | |- context [(?a =? ?b)%N] => destruct (N.eqb_spec a b)
         end; cbn [andb]; intros [= <-]; (split; [lia|]);
  repeat match goal with
         | |- context [(?a <? ?b)%N] => destruct (N.ltb_spec a b)
         | |- context [(?a =? ?b)%N] => destruct (N.eqb_spec a b)
         end; lia.
Qed.

Lemma b64_char_not_pad v : (v < 64)%N -> (b64_char v =? 61)%N = false.
Proof.
  intros Hv. apply N.eqb_neq. unfold b64_char.
  repeat match goal with
         | |- context [(?a <? ?b)%N] => destruct (N.ltb_spec a b)
         | |- context [(?a =? ?b)%N] => destruct (N.eqb_spec a b)
         end; lia.
Qed.

Lemma b64_value_not_pad c v : b64_value c = Some v -> (c =? 61)%N = false.
Proof.
  intros [Hv <-]%b64_char_value. by apply b64_char_not_pad.
Qed.

Lemma b64_sextet_digit n i :
  b64_sextet n i = b64_char ((n / 2 ^ (6 * i)) mod 64)%N.
Proof.
  unfold b64_sextet. rewrite N.shiftr_div_pow2.
  change 63%N with (N.ones 6). by rewrite N.land_ones.
Qed.

(** Names the quotient and the remainder of a division by a constant, with
    the two facts that define them. *)
Ltac divmod x d q r :=
  pose proof (N.div_mod' x d);
  pose proof (N.mod_upper_bound x d ltac:(discriminate));
  set (q := (x / d)%N) in *; set (r := (x mod d)%N) in *;
  clearbody q r.

(** The four digits in base 64 of a number of 24 bits, and its three
    digits in base 256. *)
Lemma b64_digits n :
  (n < 16777216)%N ->
  ((n / 262144) mod 64 * 4 + (n / 4096) mod 64 / 16 = n / 65536 /\
   (n / 4096) mod 64 mod 16 * 16 + (n / 64) mod 64 / 4 = (n / 256) mod 256 /\
   (n / 64) mod 64 mod 4 * 64 + n mod 64 = n mod 256)%N.
Proof.
  intros Hn.
  divmod n 262144%N n3 m3. divmod n3 64%N h3 v3.
  divmod n 4096%N n2 m2. divmod n2 64%N h2 v2. divmod v2 16%N v2h v2l.
  divmod n 64%N n1 v0. divmod n1 64%N h1 v1. divmod v1 4%N v1h v1l.
  divmod n 65536%N a m16. divmod n 256%N n8 c. divmod n8 256%N a' b.
  lia.
Qed.

Lemma b64_bytes a b c :
  let n := (Byte.to_N a * 65536 + Byte.to_N b * 256 + Byte.to_N c)%N in
  (n < 16777216 /\ n / 65536 = Byte.to_N a /\ (n / 256) mod 256 = Byte.to_N b /\
   n mod 256 = Byte.to_N c)%N.
Proof.
  intros n. subst n.
  pose proof (Byte.to_N_bounded a). pose proof (Byte.to_N_bounded b).
  pose proof (Byte.to_N_bounded c).
  generalize dependent (Byte.to_N a). generalize dependent (Byte.to_N b).
  generalize dependent (Byte.to_N c). intros C HC B HB A HA.
  set (n := (A * 65536 + B * 256 + C)%N).
  assert (n = A * 65536 + B * 256 + C)%N as Hn by reflexivity. clearbody n.
  divmod n 65536%N a' m16. divmod n 256%N n8 c'. divmod n8 256%N a'' b'.
  lia.
Qed.

Lemma b64_sextets n :
  b64_sextet n 3 = b64_char ((n / 262144) mod 64)%N /\
  b64_sextet n 2 = b64_char ((n / 4096) mod 64)%N /\
  b64_sextet n 1 = b64_char ((n / 64) mod 64)%N /\
  b64_sextet n 0 = b64_char (n mod 64)%N.
Proof.
  rewrite !b64_sextet_digit. change (2 ^ (6 * 3))%N with 262144%N.
  change (2 ^ (6 * 2))%N with 4096%N. change (2 ^ (6 * 1))%N with 64%N.
  change (2 ^ (6 * 0))%N with 1%N. by rewrite N.div_1_r.
Qed.

Lemma b64_digit_lt n d : ((n / d) mod 64 < 64)%N.
Proof. by apply N.mod_upper_bound. Qed.

Lemma b64_digit0_lt n : (n mod 64 < 64)%N.
Proof. by apply N.mod_upper_bound. Qed.

(** The group of three bytes, encoded and read back. *)
Lemma b64_group_three a b c :
  let n := (Byte.to_N a * 65536 + Byte.to_N b * 256 + Byte.to_N c)%N in
  b64_group (b64_sextet n 3) (b64_sextet n 2) (b64_sextet n 1) (b64_sextet n 0)
  = Some [a; b; c].
Proof.
  intros n. destruct (b64_sextets n) as (-> & -> & -> & ->).
  destruct (b64_bytes a b c) as (Hn & Ha & Hb & Hc). fold n in Hn, Ha, Hb, Hc.
  destruct (b64_digits n Hn) as (Da & Db & Dc).
  unfold b64_group.
  rewrite !b64_value_char by (apply b64_digit_lt || apply b64_digit0_lt).
  rewrite !b64_char_not_pad by apply b64_digit0_lt.
  rewrite Da, Db, Dc, Ha, Hb, Hc. by rewrite !Byte.of_to_N.
Qed.

(** The group of two bytes. *)
Lemma b64_group_two a b :
  let n := (Byte.to_N a * 65536 + Byte.to_N b * 256)%N in
  b64_group (b64_sextet n 3) (b64_sextet n 2) (b64_sextet n 1) 61 = Some [a; b].
Proof.
  intros n. destruct (b64_sextets n) as (-> & -> & -> & _).
  destruct (b64_bytes a b Byte.x00) as (Hn & Ha & Hb & Hc).
  change (Byte.to_N Byte.x00) with 0%N in *. rewrite N.add_0_r in Hn, Ha, Hb, Hc.
  fold n in Hn, Ha, Hb, Hc.
  destruct (b64_digits n Hn) as (Da & Db & Dc).
  assert ((n / 64) mod 64 mod 4 = 0)%N as Hz.
  { revert Dc. rewrite Hc.
    divmod n 64%N n1 v0. divmod n1 64%N h1 v1. divmod v1 4%N v1h v1l. lia. }
  unfold b64_group.
  rewrite !b64_value_char by (apply b64_digit_lt || apply b64_digit0_lt).
  rewrite b64_char_not_pad by apply b64_digit_lt.
  rewrite Da, Db, Ha, Hb, Hz. by rewrite !Byte.of_to_N.
Qed.

(** The group of one byte. *)
Lemma b64_group_one a :
  let n := (Byte.to_N a * 65536)%N in
  b64_group (b64_sextet n 3) (b64_sextet n 2) 61 61 = Some [a].
Proof.
  intros n. destruct (b64_sextets n) as (-> & -> & _ & _).
  destruct (b64_bytes a Byte.x00 Byte.x00) as (Hn & Ha & Hb & Hc).
  change (Byte.to_N Byte.x00) with 0%N in *.
  rewrite N.mul_0_l, !N.add_0_r in Hn, Ha, Hb, Hc.
  fold n in Hn, Ha, Hb, Hc.
  destruct (b64_digits n Hn) as (Da & Db & Dc).
  assert ((n / 4096) mod 64 mod 16 = 0)%N as Hz.
  { revert Db. rewrite Hb.
    divmod n 4096%N n2 m2. divmod n2 64%N h2 v2. divmod v2 16%N v2h v2l.
    divmod n 64%N n1 v0. divmod n1 64%N h1 v1. divmod v1 4%N v1h v1l. lia. }
  unfold b64_group.
  rewrite !b64_value_char by (apply b64_digit_lt || apply b64_digit0_lt).
  rewrite Da, Ha, Hz. by rewrite !Byte.of_to_N.
Qed.

Lemma b64decode_cons c1 c2 c3 c4 rest :
  b64decode (c1 :: c2 :: c3 :: c4 :: rest)
  = match b64_group c1 c2 c3 c4 with
    | Some bytes =>
      match rest with
      | [] => Some bytes
      | _ =>
        if (c4 =? 61)%N then None
        else match b64decode rest with
             | Some more => Some (bytes ++ more)
             | None => None
             end
      end
    | None => None
    end.
Proof. reflexivity. Qed.

Lemma b64encode_three a b c rest :
  b64encode (a :: b :: c :: rest)
  = let n := (Byte.to_N a * 65536 + Byte.to_N b * 256 + Byte.to_N c)%N in
    b64_sextet n 3 :: b64_sextet n 2 :: b64_sextet n 1 :: b64_sextet n 0
      :: b64encode rest.
Proof.
  cbn [b64encode]. by rewrite !N.shiftl_mul_pow2.
Qed.

Lemma b64encode_two a b :
  b64encode [a; b]
  = let n := (Byte.to_N a * 65536 + Byte.to_N b * 256)%N in
    [b64_sextet n 3; b64_sextet n 2; b64_sextet n 1; 61%N].
Proof.
  cbn [b64encode]. by rewrite !N.shiftl_mul_pow2.
Qed.

Lemma b64encode_one a :
  b64encode [a]
  = let n := (Byte.to_N a * 65536)%N in
    [b64_sextet n 3; b64_sextet n 2; 61%N; 61%N].
Proof.
  cbn [b64encode]. by rewrite !N.shiftl_mul_pow2.
Qed.

(** What [b64encode] writes, the strict decoder reads back. *)
Lemma b64decode_encode data : b64decode (b64encode data) = Some data.
Proof.
  assert (forall k data, length data <= k ->
                         b64decode (b64encode data) = Some data) as Hall.
  { clear data. induction k as [|k IH]; intros data Hk.
    - destruct data; [done|simpl in Hk; lia].
    - destruct data as [|a [|b [|c rest]]]; [done| | |].
      + rewrite b64encode_one. cbv zeta. rewrite b64decode_cons.
        by rewrite (b64_group_one a).
      + rewrite b64encode_two. cbv zeta. rewrite b64decode_cons.
        by rewrite (b64_group_two a b).
      + rewrite b64encode_three. cbv zeta. rewrite b64decode_cons.
        rewrite (b64_group_three a b c).
        destruct (b64_sextets (Byte.to_N a * 65536 + Byte.to_N b * 256
                               + Byte.to_N c)) as (_ & _ & _ & ->).
        rewrite b64_char_not_pad by apply b64_digit0_lt.
        rewrite IH by (simpl in Hk; lia).
        by destruct rest as [|d [|e [|f rest]]]. }
  by apply (Hall (length data)).
Qed.

(** Four digits in base 64, written as three bytes and read again. *)
Lemma b64_undigits v1 v2 v3 v4 :
  (v1 < 64 -> v2 < 64 -> v3 < 64 -> v4 < 64 ->
   let n := (v1 * 4 + v2 / 16) * 65536 + (v2 mod 16 * 16 + v3 / 4) * 256
            + (v3 mod 4 * 64 + v4) in
   (n / 262144) mod 64 = v1 /\ (n / 4096) mod 64 = v2 /\
   (n / 64) mod 64 = v3 /\ n mod 64 = v4)%N.
Proof.
  intros H1 H2 H3 H4 n.
  assert (n = (v1 * 4 + v2 / 16) * 65536 + (v2 mod 16 * 16 + v3 / 4) * 256
              + (v3 mod 4 * 64 + v4))%N as Hn by reflexivity.
  clearbody n.
  divmod v2 16%N v2h v2l. divmod v3 4%N v3h v3l.
  divmod n 262144%N n3 m3. divmod n3 64%N h3 d3.
  divmod n 4096%N n2 m2. divmod n2 64%N h2 d2.
  divmod n 64%N n1 d0. divmod n1 64%N h1 d1.
  lia.
Qed.

(** A group that the strict decoder accepts is the encoding of its
    bytes. *)
Lemma b64_group_encode c1 c2 c3 c4 bytes :
  b64_group c1 c2 c3 c4 = Some bytes ->
  [c1; c2; c3; c4] = b64encode bytes /\
  ((c4 =? 61)%N = false -> exists a b c, bytes = [a; b; c]).
Proof.
  unfold b64_group.
  destruct (b64_value c1) as [v1|] eqn:E1; [|done].
  destruct (b64_value c2) as [v2|] eqn:E2; [|done].
  apply b64_char_value in E1 as [H1 <-]. apply b64_char_value in E2 as [H2 <-].
  destruct (Byte.of_N (v1 * 4 + v2 / 16)) as [a|] eqn:Ea; [|done].
  apply Byte.to_of_N in Ea.
  destruct (N.eqb_spec c4 61) as [->|Hc4].
  - destruct (N.eqb_spec c3 61) as [->|Hc3].
    + destruct (N.eqb_spec (v2 mod 16) 0) as [Hz|]; [|done]. intros [= <-].
      split; [|done]. rewrite b64encode_one. cbv zeta.
      destruct (b64_sextets (Byte.to_N a * 65536)) as (-> & -> & _ & _).
      destruct (b64_undigits v1 v2 0 0) as (D1 & D2 & _ & _); try done.
      cbv zeta in D1, D2. rewrite Hz, <- Ea in D1, D2.
      change (0 * 16 + 0 / 4)%N with 0%N in D1, D2.
      change (0 mod 4 * 64 + 0)%N with 0%N in D1, D2.
      rewrite N.mul_0_l, !N.add_0_r in D1, D2. by rewrite D1, D2.
    + destruct (b64_value c3) as [v3|] eqn:E3; [|done].
      apply b64_char_value in E3 as [H3 <-].
      destruct (Byte.of_N (v2 mod 16 * 16 + v3 / 4)) as [b|] eqn:Eb; [|done].
      apply Byte.to_of_N in Eb.
      destruct (N.eqb_spec (v3 mod 4) 0) as [Hz|]; [|done]. intros [= <-].
      split; [|done]. rewrite b64encode_two. cbv zeta.
      destruct (b64_sextets (Byte.to_N a * 65536 + Byte.to_N b * 256))
        as (-> & -> & -> & _).
      destruct (b64_undigits v1 v2 v3 0) as (D1 & D2 & D3 & _); try done.
      cbv zeta in D1, D2, D3. rewrite Hz, <- Ea, <- Eb in D1, D2, D3.
      change (0 * 64 + 0)%N with 0%N in D1, D2, D3.
      rewrite !N.add_0_r in D1, D2, D3. by rewrite D1, D2, D3.
  - destruct (b64_value c3) as [v3|] eqn:E3; [|done].
    destruct (b64_value c4) as [v4|] eqn:E4; [|done].
    apply b64_char_value in E3 as [H3 <-].
    apply b64_char_value in E4 as [H4 E4].
    destruct (Byte.of_N (v2 mod 16 * 16 + v3 / 4)) as [b|] eqn:Eb; [|done].
    destruct (Byte.of_N (v3 mod 4 * 64 + v4)) as [c|] eqn:Ec; [|done].
    apply Byte.to_of_N in Eb. apply Byte.to_of_N in Ec. intros [= <-].
    split; [|by eauto]. rewrite b64encode_three. cbv zeta.
    destruct (b64_sextets (Byte.to_N a * 65536 + Byte.to_N b * 256 + Byte.to_N c))
      as (-> & -> & -> & ->).
    destruct (b64_undigits v1 v2 v3 v4) as (D1 & D2 & D3 & D4); try done.
    cbv zeta in D1, D2, D3, D4. rewrite <- Ea, <- Eb, <- Ec in D1, D2, D3, D4.
    by rewrite D1, D2, D3, D4, E4.
Qed.

(** The strict decoder accepts the encodings and nothing else. *)
Lemma b64decode_unique s data : b64decode s = Some data <-> s = b64encode data.
Proof.
  split; [|intros ->; apply b64decode_encode].
  assert (forall k s data, length s <= k -> b64decode s = Some data ->
                           s = b64encode data) as Hall.
  { clear s data. induction k as [|k IH]; intros s data Hk.
    - destruct s; [by intros [= <-]|simpl in Hk; lia].
    - destruct s as [|c1 [|c2 [|c3 [|c4 rest]]]]; try done; [by intros [= <-]|].
      rewrite b64decode_cons.
      destruct (b64_group c1 c2 c3 c4) as [bytes|] eqn:Eg; [|done].
      apply b64_group_encode in Eg as [Eenc Hfull].
      destruct rest as [|c5 rest]; [by intros [= <-]|].
      destruct (N.eqb_spec c4 61) as [|Hc4]; [done|].
      destruct (b64decode (c5 :: rest)) as [more|] eqn:Em; [|done].
      intros [= <-]. destruct (Hfull eq_refl) as (a & b & c & ->).
      apply IH in Em; [|simpl in Hk |- *; lia].
      change ([a; b; c] ++ more) with (a :: b :: c :: more).
      rewrite b64encode_three in Eenc |- *. cbv zeta in Eenc |- *.
      injection Eenc as -> -> -> ->. by rewrite Em. }
  by apply (Hall (length s)).
Qed.

Example b64encode_rfc4648 :
  b64encode [] = [] /\
  b64encode [Byte.x66] = py "Zg==" /\
  b64encode [Byte.x66; Byte.x6f] = py "Zm8=" /\
  b64encode [Byte.x66; Byte.x6f; Byte.x6f] = py "Zm9v" /\
  b64encode [Byte.x66; Byte.x6f; Byte.x6f; Byte.x62] = py "Zm9vYg==" /\
  b64encode [Byte.xff; Byte.xfe; Byte.xfd] = py "//79".
Proof. by vm_compute. Qed.


(* ===================================================================== *)
(** * Further properties: requests, repeated cleanup, colliding names *)
(* ===================================================================== *)

(** A property of the requests sent so far. *)
Definition on_requests (Q : list request -> Prop) (w : World) : Prop :=
  Q (requests w).

Section MoreRuns.
Context `{PyRuntime}.

Lemma log_requests Q l msg : preserves (on_requests Q) (log l msg).
Proof. by intros w Hw. Qed.

(** What the recognition sends once the token is settled. *)
Lemma perform_ocr_sends path w tok w1 :
  get_access_token w = (Ok tok, w1) ->
  requests (snd (_perform_ocr path w))
  = requests w1 ++
    (if truthy tok
     then match fs w1 !! path with
          | Some (File data) => [ocr_request (self w1) tok data]
          | _ => []
          end
     else []).
Proof.
  intros Ht. destruct (truthy tok) eqn:Hf.
  - destruct (fs w1 !! path) as [[data|]|] eqn:Hr.
    + unfold _perform_ocr, try_except.
      rewrite (recognise_sent _ _ _ _ _ Ht Hf Hr).
      destruct (ocr_reply w1 tok data) as [result|e]; [|done].
      match goal with
      | |- context [?k (emit ?ev w1)] => set (body := k); set (w2 := emit ev w1)
      end.
      assert (preserves (on_requests (fun r => r = requests w2))
                (try_except body
                   (fun e => log ERROR (py "OCR识别失败: " ++ exn_str e);;
                             mret []))) as Hp.
      { pose proof (log_requests (fun r => r = requests w2)).
        apply preserves_try; [unfold body|intros]; keeps. }
      exact (Hp w2 eq_refl).
    + rewrite (perform_ocr_caught path w (IsADirectoryError path) w1).
      * cbn. by rewrite app_nil_r.
      * apply (recognise_unreadable _ _ tok); [done|done|].
        unfold open_read. by rewrite Hr.
    + rewrite (perform_ocr_caught path w (FileNotFoundError path) w1).
      * cbn. by rewrite app_nil_r.
      * apply (recognise_unreadable _ _ tok); [done|done|].
        unfold open_read. by rewrite Hr.
  - rewrite (perform_ocr_returned _ _ _ _
               (recognise_unauthenticated path _ _ _ Ht Hf)).
    cbn. by rewrite app_nil_r.
Qed.

(** X19.  What the recognition sends once the token is settled: nothing
    without a token or without an image file that can be read, and else
    one request, whatever the answer is.  For a token that is a string
    [t] the request goes to the recognition URL followed by
    [?access_token=] and [t], with the form fields [image] (the one text
    that decodes, as strict base64, to the bytes of the file),
    [language_type=CHN_ENG], [detect_direction=true], [paragraph=true] and
    [probability=false], in this order. *)
Theorem perform_ocr_requests path w tok w1 :
  get_access_token w = (Ok tok, w1) ->
  (truthy tok = false ->
   requests (snd (_perform_ocr path w)) = requests w1)
  /\ ((forall data, fs w1 !! path ≠ Some (File data)) ->
      requests (snd (_perform_ocr path w)) = requests w1)
  /\ (forall t data,
        tok = PStr t -> t ≠ [] -> fs w1 !! path = Some (File data) ->
        exists image,
          requests (snd (_perform_ocr path w))
          = requests w1 ++
            [{| req_url := ocr_url (self w1) ++ py "?access_token=" ++ t;
                req_data := [(py "image", image);
                             (py "language_type", py "CHN_ENG");
                             (py "detect_direction", py "true");
                             (py "paragraph", py "true");
                             (py "probability", py "false")] |}]
          /\ b64decode image = Some data
          /\ forall s, b64decode s = Some data -> s = image)
  /\ (forall data,
        truthy tok = true -> fs w1 !! path = Some (File data) ->
        requests (snd (_perform_ocr path w))
        = requests w1 ++ [ocr_request (self w1) tok data]).
Proof.
  intros Ht. pose proof (perform_ocr_sends path w tok w1 Ht) as E.
  split_and!.
  - intros Hf. rewrite E, Hf. apply app_nil_r.
  - intros Hno. rewrite E. destruct (truthy tok); [|apply app_nil_r].
    destruct (fs w1 !! path) as [[data|]|] eqn:Hr; [|apply app_nil_r..].
    by destruct (Hno data).
  - intros t data -> Hne Hr. exists (b64encode data).
    rewrite E, Hr. replace (truthy (PStr t)) with true by (by destruct t).
    split; [reflexivity|]. split; [apply b64decode_encode|].
    intros s Hs. by apply b64decode_unique.
  - intros data Hf Hr. by rewrite E, Hf, Hr.
Qed.

(** One step of the cleanup leaves the files as they are or deletes the
    file it was called on. *)
Lemma cleanup_one_fs path w :
  env (snd (cleanup_one path w)) = env w /\
  (fs (snd (cleanup_one path w)) = fs w \/
   exists p data,
     path = Some p /\ p ≠ [] /\ fs w !! p = Some (File data) /\
     undeletable (env w) p = false /\
     fs (snd (cleanup_one path w)) = delete p (fs w)).
Proof.
  destruct (existing w path) eqn:Hex.
  2: { rewrite (cleanup_one_absent _ _ Hex). split; [done|by left]. }
  destruct path as [p|]; [|done]. revert Hex.
  unfold existing, cleanup_one. intros [Hp Hex]%andb_true_iff.
  rewrite run_bind. rewrite Hp. cbn. rewrite Hex.
  unfold try_except, unlink, mbind, M_bind, log. cbn.
  apply bool_decide_eq_true_1 in Hex as [nd Hnd]. rewrite Hnd.
  destruct nd as [data|]; [destruct (undeletable (env w) p) eqn:Hu|]; cbn.
  - split; [done|by left].
  - split; [done|]. right. exists p, data.
    split_and!; try done. by destruct p.
  - split; [done|by left].
Qed.

(** The cleanup only deletes. *)
Lemma cleanup_loop_subset paths w :
  env (snd (cleanup_loop paths w)) = env w /\
  forall q x, fs (snd (cleanup_loop paths w)) !! q = Some x -> fs w !! q = Some x.
Proof.
  revert w. induction paths as [|path paths IH]; intros w; [done|].
  simpl. destruct (cleanup_one_run path w) as [w' E].
  rewrite (run_bind_ok _ _ _ _ _ E).
  destruct (IH w') as [He Hsub].
  destruct (cleanup_one_fs path w) as [He1 Hcase]. rewrite E in He1, Hcase.
  cbn [snd] in *. split; [congruence|]. intros q x Hq.
  apply Hsub in Hq.
  destruct Hcase as [Hf|(p & data & _ & _ & _ & _ & Hf)]; rewrite Hf in Hq;
    [done|].
  by apply lookup_delete_Some in Hq as [_ ?].
Qed.

(** When every listed file that is left cannot be deleted, the cleanup
    changes no file. *)
Lemma cleanup_loop_settled paths w :
  (forall p data, In (Some p) paths -> p ≠ [] ->
                  fs w !! p = Some (File data) -> undeletable (env w) p = true) ->
  fs (snd (cleanup_loop paths w)) = fs w.
Proof.
  revert w. induction paths as [|path paths IH]; intros w Hset; [done|].
  simpl. destruct (cleanup_one_run path w) as [w' E].
  rewrite (run_bind_ok _ _ _ _ _ E).
  destruct (cleanup_one_fs path w) as [He Hcase]. rewrite E in He, Hcase.
  cbn [snd] in *.
  destruct Hcase as [Hf|(p & data & -> & Hp & Hfile & Hu & _)].
  - rewrite IH; [done|]. intros p data Hin Hp Hfile.
    rewrite He. rewrite Hf in Hfile. apply (Hset p data); [by right|done|done].
  - rewrite (Hset p data) in Hu; [done|by left|done|done].
Qed.

(** X20.  Running the cleanup a second time on the same paths changes no file:
    what the first run could delete is gone, and what it could not delete
    the second run cannot delete either. *)
Theorem cleanup_files_idempotent paths w :
  fs (snd (cleanup_files paths (snd (cleanup_files paths w))))
  = fs (snd (cleanup_files paths w)).
Proof.
  change (cleanup_files paths w)
    with (cleanup_loop paths (emit (ESleep 3) w)).
  set (w1 := snd (cleanup_loop paths (emit (ESleep 3) w))).
  change (cleanup_files paths w1)
    with (cleanup_loop paths (emit (ESleep 3) w1)).
  destruct (cleanup_loop_subset paths (emit (ESleep 3) w)) as [He Hsub].
  fold w1 in He, Hsub.
  rewrite cleanup_loop_settled; [done|].
  intros p data Hin Hp Hfile.
  change (fs w1 !! p = Some (File data)) in Hfile.
  change (undeletable (env w1) p = true).
  destruct (undeletable (env w1) p) eqn:Hu; [done|].
  pose proof (cleanup_loop_deletes paths (emit (ESleep 3) w) p data Hin Hp
                (Hsub _ _ Hfile)) as Hgone.
  rewrite <- He, Hu in Hgone. specialize (Hgone eq_refl).
  fold w1 in Hgone. congruence.
Qed.

Lemma download_image_self Q event file_id :
  preserves (on_self Q) (download_image event file_id).
Proof. unfold download_image, fetch, read_attachment, save_copy. keeps. Qed.

(** X21.  The temporary copy is named by the second: of two downloads whose
    clock readings fall in the same second, the later one writes to the
    path of the earlier one, which then holds the later image. *)
Theorem download_image_same_second
    event1 id1 event2 id2 w temp1 orig1 w1 temp2 orig2 w2 :
  download_image event1 id1 w = (Ok (temp1, orig1), w1) ->
  temp1 ≠ [] ->
  download_image event2 id2 w1 = (Ok (temp2, orig2), w2) ->
  temp2 ≠ [] ->
  int_of_float (now w1) = int_of_float (now w) ->
  temp2 = temp1 /\
  exists p data,
    orig2 = Some p /\ fs w2 !! p = Some (File data) /\
    fs w2 !! temp1 = Some (File data).
Proof.
  intros Hd1 Ht1 Hd2 Ht2 Hsec.
  destruct (download_image_copy_made _ _ _ _ _ _ Hd1 Ht1)
    as (p1 & data1 & n1 & _ & _ & _ & _ & Hn1 & Hname1).
  destruct (download_image_copy_made _ _ _ _ _ _ Hd2 Ht2)
    as (p2 & data2 & n2 & -> & _ & Hcopy & Horig & Hn2 & Hname2).
  pose proof (download_image_self (fun s => s = self w) event1 id1 w eq_refl)
    as Hs.
  rewrite Hd1 in Hs. unfold on_self in Hs. cbn [snd] in Hs.
  assert (temp2 = temp1) as ->.
  { rewrite Hname1, Hname2, Hs. rewrite Hsec, Hn1 in Hn2. by injection Hn2 as ->. }
  split; [done|]. by exists p2, data2.
Qed.

End MoreRuns.

(* ===================================================================== *)
(** * Concrete runs *)
(* ===================================================================== *)

(** A runtime whose renderings are fixed texts. *)
#[local] Instance ex_runtime : PyRuntime :=
  {| repr_other := fun _ => py "<object>";
     exn_str := fun e => match e with External _ msg => msg | _ => py "error" end |}.

Definition ex_config : gmap pystr pystr :=
  <[py "api_key" := py "ak"]> (<[py "secret_key" := py "sk"]> ∅).

Definition ex_token_response : pyval :=
  PDict (<[py "access_token" := PStr (py "T0K")]>
           (<[py "expires_in" := PInt 2592000]> ∅)).

Definition ex_words (l : list pystr) : pyval :=
  PDict {[ py "words_result" :=
             PList (map (fun ws => PDict {[ py "words" := PStr ws ]}) l) ]}.

Definition ex_limit_reached : pyval :=
  PDict (<[py "error_code" := PInt 17]>
           (<[py "error_msg" := PStr (py "Open api daily request limit reached")]> ∅)).

(** The first answer is the token; the second is given. *)
Definition ex_env (second : result pyval) : Env :=
  {| clock := fun n => match n with
                       | O => 1700000000
                       | _ => 1700000001.5
                       end%float;
     net := fun n _ => match n with O => Ok ex_token_response | _ => second end;
     undeletable := fun p => str_eqb p (py "/data/locked") |}.

Definition ex_path : pystr := py "/data/img.jpg".

Definition ex_blank : OCRPlugin :=
  {| temp_dir := []; access_token := PNone; token_expire_time := NInt 0;
     api_key := []; secret_key := []; token_url := []; ocr_url := [] |}.

Definition ex_boot (e : Env) : World :=
  {| self := ex_blank; env := e; ticks := 0;
     fs := {[ ex_path := File [Byte.x41] ]}; trace := [] |}.

(** A plugin built from [ex_config] in a world whose second answer is
    [second]. *)
Definition ex_world (second : result pyval) : World :=
  snd (__init__ (py "/tmp") ex_config (ex_boot (ex_env second))).

(** A plugin without keys. *)
Definition ex_no_keys : World :=
  snd (__init__ (py "/tmp") ∅ (ex_boot (ex_env (Raise ValueError)))).

(** A world in which the network is down. *)
Definition ex_offline : World :=
  snd (__init__ (py "/tmp") ex_config
         (ex_boot {| clock := fun _ => 1700000000%float;
                     net := fun _ _ => Raise (External (py "ClientConnectorError")
                                                (py "Cannot connect to host"));
                     undeletable := fun _ => false |})).

Definition ex_image : Image :=
  {| file := py "f1"; convert_to_file_path := fun m => (Ok ex_path, m) |}.

Definition ex_event : AstrMessageEvent :=
  {| get_messages := [COther; CImage ex_image];
     get_image := fun _ m => (Raise (External (py "ActionFailed") (py "no such file")), m) |}.

(** An attachment the platform cannot resolve. *)
Definition ex_lost_image : Image :=
  {| file := py "f2";
     convert_to_file_path := fun m => (Raise (External (py "Exception") (py "not a valid file")), m) |}.

Definition ex_lost_event : AstrMessageEvent :=
  {| get_messages := [CImage ex_lost_image];
     get_image := get_image ex_event |}.

Definition ex_temp : pystr := py "/tmp/astrbot_ocr/ocr_1700000000.jpg".

Lemma ex_world_reachable second : reachable (ex_world second).
Proof.
  eapply (reachable_init (py "/tmp") ex_config (ex_boot (ex_env second))).
  vm_compute. reflexivity.
Qed.

(** ** C9: no keys *)
Lemma get_access_token_not_configured_witness :
  get_access_token ex_no_keys = (Ok PNone, ex_no_keys).
Proof.
  apply (get_access_token_not_configured ex_no_keys). left. vm_compute; reflexivity.
Defined.

(** ** C2: a second call within the life time of the token *)
Definition ex_warm : World :=
  run Call_get_access_token (ex_world (Raise ValueError)).

Lemma get_access_token_cached_witness :
  get_access_token ex_warm
  = (Ok (PStr (py "T0K")), set_ticks (S (ticks ex_warm)) ex_warm)
  /\ requests (snd (get_access_token ex_warm)) = requests ex_warm
  /\ self (snd (get_access_token ex_warm)) = self ex_warm.
Proof.
  apply (get_access_token_cached ex_warm).
  - apply reachable_call, ex_world_reachable.
  - vm_compute; reflexivity.
  - vm_compute; reflexivity.
Defined.


(** ** C4: the network is down *)
Lemma get_access_token_exchange_fails_witness :
  exists w',
    get_access_token ex_offline = (Ok PNone, w') /\
    access_token (self w') = PNone /\
    token_expire_time (self w') = NInt 0.
Proof.
  apply (get_access_token_exchange_fails ex_offline).
  - left. vm_compute; reflexivity.
  - left. eexists. vm_compute; reflexivity.
Defined.

(** ** C1: two words *)
Definition ex_tokened (second : result pyval) : World :=
  snd (get_access_token (ex_world second)).

Lemma perform_ocr_text_witness :
  fst (_perform_ocr ex_path (ex_world (Ok (ex_words [py "  A"; []; py "B "]))))
  = Ok (py "A" ++ NL :: py "B").
Proof.
  refine (proj1 (proj2 (proj2 (proj2 (proj2
    (perform_ocr_text ex_path (ex_world (Ok (ex_words [py "  A"; []; py "B "])))
       (PStr (py "T0K")) (ex_tokened (Ok (ex_words [py "  A"; []; py "B "])))
       [Byte.x41]
       {[ py "words_result" :=
            PList [PDict {[ py "words" := PStr (py "  A") ]};
                   PDict {[ py "words" := PStr [] ]};
                   PDict {[ py "words" := PStr (py "B ") ]}] ]}
       [PDict {[ py "words" := PStr (py "  A") ]};
        PDict {[ py "words" := PStr [] ]};
        PDict {[ py "words" := PStr (py "B ") ]}]
       [py "  A"; []; py "B "] _ _ _ _ _ _ _))))) eq_refl).
  - vm_compute; reflexivity.
  - vm_compute; reflexivity.
  - vm_compute; reflexivity.
  - vm_compute; reflexivity.
  - vm_compute; reflexivity.
  - vm_compute; reflexivity.
  - repeat constructor.
Defined.

(** ** C6: the image is not there *)
Lemma perform_ocr_fail_soft_witness :
  fst (_perform_ocr (py "/data/gone.jpg") (ex_world (Raise ValueError))) = Ok [].
Proof.
  refine (proj1 (proj2 (proj2
    (perform_ocr_fail_soft (py "/data/gone.jpg") (ex_world (Raise ValueError))))
       (PStr (py "T0K")) (ex_tokened (Raise ValueError)) _ _)
       (FileNotFoundError (py "/data/gone.jpg")) _).
  - vm_compute; reflexivity.
  - vm_compute; reflexivity.
  - vm_compute; reflexivity.
Defined.

(** ** C5: a plugin without keys answers an image *)
Definition ex_fetched (w : World) : World :=
  snd (download_image ex_event (py "f1") w).

Lemma sentinel_sent_as_text_witness :
  fst (_perform_ocr ex_temp (ex_fetched ex_no_keys)) = Ok (py "OCR服务认证失败")
  /\ py "OCR服务认证失败" ≠ [] /\ strip (py "OCR服务认证失败") ≠ []
  /\ reply_for (py "OCR服务认证失败")
     = py "图片中的文字内容：" ++ NL :: py "OCR服务认证失败"
  /\ replies (snd (ocr_command ex_event ex_no_keys))
     = replies ex_no_keys ++ [py "图片中的文字内容：" ++ NL :: py "OCR服务认证失败"].
Proof.
  apply (sentinel_sent_as_text ex_event ex_no_keys ex_image []
           ex_temp (Some ex_path) (ex_fetched ex_no_keys)).
  - vm_compute; reflexivity.
  - vm_compute; reflexivity.
  - by vm_compute.
  - apply (no_token ex_temp (ex_fetched ex_no_keys) PNone (ex_fetched ex_no_keys));
      vm_compute; reflexivity.
Defined.

(** ** C7: the daily limit is reached *)
Lemma provider_error_reply_witness :
  exists reply,
    replies (snd (ocr_command ex_event (ex_world (Ok ex_limit_reached))))
    = replies (ex_world (Ok ex_limit_reached)) ++ [reply] /\
    reply = py "图片中的文字内容：" ++ NL :: py "OCR识别失败: "
            ++ py "Open api daily request limit reached" /\
    str_contains reply (py "Open api daily request limit reached") = true /\
    exists before after,
      reply = before ++ py "Open api daily request limit reached" ++ after.
Proof.
  refine (proj1 (proj2
    (provider_error_reply ex_event (ex_world (Ok ex_limit_reached))
       ex_image [] ex_temp (Some ex_path)
       (ex_fetched (ex_world (Ok ex_limit_reached)))
       (PStr (py "T0K"))
       (snd (get_access_token (ex_fetched (ex_world (Ok ex_limit_reached)))))
       [Byte.x41]
       (<[py "error_code" := PInt 17]>
          (<[py "error_msg" := PStr (py "Open api daily request limit reached")]> ∅))
       (PInt 17) (PStr (py "Open api daily request limit reached"))
       _ _ _ _ _ _ _ _ _))
    (py "Open api daily request limit reached") eq_refl).
  - vm_compute; reflexivity.
  - vm_compute; reflexivity.
  - by vm_compute.
  - vm_compute; reflexivity.
  - vm_compute; reflexivity.
  - vm_compute; reflexivity.
  - vm_compute; reflexivity.
  - vm_compute; reflexivity.
  - vm_compute; reflexivity.
Defined.

(** ** C8: an attachment the platform cannot resolve *)
Definition ex_logged : World :=
  emit (ELog ERROR (py "图片下载失败: " ++ py "not a valid file"))
    (ex_world (Raise ValueError)).

Lemma download_failure_reply_witness :
  ocr_command_with (fun _ => lift (Raise ValueError)) ex_lost_event
    (ex_world (Raise ValueError))
  = (Ok tt, emit (EReply (py "图片下载失败")) ex_logged)
  /\ ocr_command ex_lost_event (ex_world (Raise ValueError))
     = (Ok tt, emit (EReply (py "图片下载失败")) ex_logged)
  /\ replies (snd (ocr_command ex_lost_event (ex_world (Raise ValueError))))
     = replies (ex_world (Raise ValueError)) ++ [py "图片下载失败"]
  /\ (forall file_id w0,
        find_image (get_messages ex_lost_event) file_id = None ->
        download_image ex_lost_event file_id w0 = (Ok ([], None), w0))
  /\ (forall file_id w0 e w',
        fetch ex_lost_event file_id w0 = (Raise e, w') ->
        fst (download_image ex_lost_event file_id w0) = Ok ([], None)).
Proof.
  apply (download_failure_reply (fun _ => lift (Raise ValueError)) ex_lost_event
           (ex_world (Raise ValueError)) ex_lost_image [] None ex_logged).
  - vm_compute; reflexivity.
  - vm_compute; reflexivity.
Defined.

(** ** C10: a file, a directory, a locked file, a path that is gone *)
Definition ex_disk : World :=
  {| self := ex_blank; env := ex_env (Raise ValueError); ticks := 0;
     fs := {[ py "/a" := File []; py "/d" := Dir;
              py "/data/locked" := File [Byte.x41] ]};
     trace := [] |}.

Definition ex_paths : list (option pystr) :=
  [Some (py "/d"); None; Some (py "/data/locked"); Some (py "/gone");
   Some []; Some (py "/a")].

Lemma cleanup_files_safe_witness :
  fst (cleanup_files ex_paths ex_disk) = Ok tt
  /\ fst (cleanup_files ex_paths (snd (cleanup_files ex_paths ex_disk))) = Ok tt
  /\ In (EUnlink (py "/a")) (trace (snd (cleanup_files ex_paths ex_disk)))
  /\ fs (snd (cleanup_files ex_paths ex_disk)) !! py "/a" = None.
Proof.
  pose proof (cleanup_files_safe ex_paths ex_disk) as (H1 & H2 & _ & _ & H5 & H6).
  split_and!; [exact H1|exact H2| |].
  - apply (H5 (py "/a")); [|vm_compute; reflexivity]. do 5 right. by left.
  - apply (H6 (py "/a") []); [|by vm_compute|vm_compute; reflexivity|vm_compute; reflexivity].
    do 5 right. by left.
Defined.

(** ** Further runs *)

(** A scan with blank lines at the start, in the middle and at the end. *)
Definition ex_scanned : pystr :=
  NL :: py "  A" ++ NL :: NL :: py " " ++ NL :: py "B " ++ [NL; NL].

Lemma returned_text_has_no_blank_line_witness :
  Forall (fun l => blank l = false)
    (split_lines (strip (re_sub_blank ex_scanned))).
Proof.
  apply (returned_text_has_no_blank_line ex_scanned). by vm_compute.
Defined.

(** A message of text only. *)
Definition ex_text_event : AstrMessageEvent :=
  {| get_messages := [COther; COther]; get_image := get_image ex_event |}.

Lemma ocr_command_without_image_witness :
  ocr_command_with (fun _ => lift (Raise ValueError)) ex_text_event ex_no_keys
  = (Ok tt, emit (EReply (py "请发送一张包含文字的图片")) ex_no_keys)
  /\ ocr_command ex_text_event ex_no_keys
     = (Ok tt, emit (EReply (py "请发送一张包含文字的图片")) ex_no_keys).
Proof.
  apply (ocr_command_without_image (fun _ => lift (Raise ValueError))
           ex_text_event ex_no_keys).
  vm_compute; reflexivity.
Defined.

(** A message with two images, the second of which cannot be resolved. *)
Definition ex_two_images : AstrMessageEvent :=
  {| get_messages := [CImage ex_image; COther; CImage ex_lost_image];
     get_image := get_image ex_event |}.

Lemma ocr_command_first_image_only_witness :
  ocr_command_with _perform_ocr ex_two_images (ex_world (Raise ValueError))
  = ocr_command_with _perform_ocr
      {| get_messages := [CImage ex_image];
         get_image := get_image ex_two_images |}
      (ex_world (Raise ValueError)).
Proof.
  apply (ocr_command_first_image_only _perform_ocr ex_two_images
           (ex_world (Raise ValueError)) ex_image [ex_lost_image]).
  vm_compute; reflexivity.
Defined.

Lemma reply_selection_witness :
  exists w',
    ocr_command_with _perform_ocr ex_event (ex_world (Ok (ex_words [py "A"; py "B"])))
    = (Ok tt,
       emit (EReply (if blank (py "A" ++ NL :: py "B")
                     then py "未识别到文字，请检查图片清晰度"
                     else py "图片中的文字内容：" ++ NL :: py "A" ++ NL :: py "B")) w').
Proof.
  apply (reply_selection _perform_ocr ex_event
           (ex_world (Ok (ex_words [py "A"; py "B"]))) ex_image []
           ex_temp (Some ex_path)
           (ex_fetched (ex_world (Ok (ex_words [py "A"; py "B"]))))
           (py "A" ++ NL :: py "B")
           (snd (_perform_ocr ex_temp
                   (ex_fetched (ex_world (Ok (ex_words [py "A"; py "B"])))))));
    try (vm_compute; reflexivity).
  by vm_compute.
Defined.

Lemma failure_reported_as_no_text_witness :
  fst (_perform_ocr ex_temp (ex_fetched (ex_world (Raise ValueError)))) = Ok []
  /\ replies (snd (ocr_command ex_event (ex_world (Raise ValueError))))
     = replies (ex_world (Raise ValueError))
       ++ [py "未识别到文字，请检查图片清晰度"].
Proof.
  apply (failure_reported_as_no_text ex_event (ex_world (Raise ValueError))
           ex_image [] ex_temp (Some ex_path)
           (ex_fetched (ex_world (Raise ValueError))) ValueError
           (snd (recognise ex_temp (ex_fetched (ex_world (Raise ValueError))))));
    try (vm_compute; reflexivity).
  by vm_compute.
Defined.

Lemma get_access_token_twice_witness :
  exists w1 w2,
    get_access_token (ex_world (Raise ValueError)) = (Ok (PStr (py "T0K")), w1) /\
    get_access_token w1 = (Ok (PStr (py "T0K")), w2) /\
    requests w2 = requests w1 /\
    requests w1 = requests (ex_world (Raise ValueError))
                  ++ [token_request (self (ex_world (Raise ValueError)))] /\
    self w2 = self w1.
Proof.
  apply (get_access_token_twice (ex_world (Raise ValueError))
           (<[py "access_token" := PStr (py "T0K")]>
              (<[py "expires_in" := PInt 2592000]> ∅))
           (PStr (py "T0K")) (PInt 2592000) 2592000%float).
  - split; by vm_compute.
  - left. vm_compute; reflexivity.
  - vm_compute; reflexivity.
  - vm_compute; reflexivity.
  - vm_compute; reflexivity.
  - vm_compute; reflexivity.
  - vm_compute; reflexivity.
  - vm_compute; reflexivity.
Defined.

(** A token endpoint that names no life time. *)
Definition ex_short : World :=
  snd (__init__ (py "/tmp") ex_config
         (ex_boot {| clock := fun _ => 1700000000%float;
                     net := fun _ _ =>
                       Ok (PDict (<[py "access_token" := PStr (py "T0K")]> ∅));
                     undeletable := fun _ => false |})).

Lemma get_access_token_bad_lifetime_witness :
  exists w',
    get_access_token ex_short = (Ok PNone, w') /\
    access_token (self w') = PStr (py "T0K") /\
    token_expire_time (self w') = token_expire_time (self ex_short).
Proof.
  apply (get_access_token_bad_lifetime ex_short
           (<[py "access_token" := PStr (py "T0K")]> ∅) (PStr (py "T0K"))).
  - split; by vm_compute.
  - left. vm_compute; reflexivity.
  - vm_compute; reflexivity.
  - vm_compute; reflexivity.
  - left. vm_compute; reflexivity.
Defined.

Lemma get_access_token_one_request_witness :
  requests (snd (get_access_token (ex_world (Raise ValueError))))
  = requests (ex_world (Raise ValueError)) ++
    [{| req_url := token_url (self (ex_world (Raise ValueError)));
        req_data := [(py "grant_type", py "client_credentials");
                     (py "client_id", api_key (self (ex_world (Raise ValueError))));
                     (py "client_secret",
                      secret_key (self (ex_world (Raise ValueError))))] |}].
Proof.
  apply (proj1 (get_access_token_one_request (ex_world (Raise ValueError)))).
  split; [split; by vm_compute|]. left. vm_compute; reflexivity.
Defined.

Lemma perform_ocr_without_keys_witness :
  _perform_ocr ex_temp ex_no_keys = (Ok (py "OCR服务认证失败"), ex_no_keys).
Proof.
  apply (perform_ocr_without_keys ex_temp ex_no_keys).
  left. vm_compute; reflexivity.
Defined.

Lemma initialize_fetches_token_witness :
  initialize ex_no_keys
  = (Ok tt, emit (ELog INFO (py "百度OCR文字识别")) ex_no_keys).
Proof.
  apply (proj1 (proj2 (initialize_fetches_token ex_no_keys))).
  left. vm_compute; reflexivity.
Defined.

Lemma download_image_copies_witness :
  exists p data n,
    Some ex_path = Some p /\ p ≠ [] /\
    fs (ex_fetched ex_no_keys) !! ex_temp = Some (File data) /\
    fs (ex_fetched ex_no_keys) !! p = Some (File data) /\
    int_of_float (now ex_no_keys) = Ok n /\
    ex_temp = path_join (temp_dir (self ex_no_keys))
                (py "ocr_" ++ str_of_int n ++ py ".jpg").
Proof.
  apply (download_image_copies ex_event (py "f1") ex_no_keys ex_temp
           (Some ex_path) (ex_fetched ex_no_keys)).
  - vm_compute; reflexivity.
  - by vm_compute.
Defined.

Lemma cleanup_files_only_listed_witness :
  fs (snd (cleanup_files [Some (py "/a"); None] ex_disk)) !! py "/d"
  = fs ex_disk !! py "/d".
Proof.
  apply (proj1 (cleanup_files_only_listed [Some (py "/a"); None] ex_disk (py "/d"))).
  intros [E|[E|[]]]; vm_compute in E; discriminate E.
Defined.

Lemma ocr_command_artifacts_removed_witness :
  exists p,
    Some ex_path = Some p /\
    spawned (snd (ocr_command ex_event (ex_world (Raise ValueError))))
    = spawned (ex_world (Raise ValueError)) ++ [[Some ex_temp; Some p]] /\
    (undeletable (env (ex_world (Raise ValueError))) ex_temp = false ->
     fs (snd (cleanup_files [Some ex_temp; Some p]
                (snd (ocr_command ex_event (ex_world (Raise ValueError))))))
       !! ex_temp = None) /\
    (undeletable (env (ex_world (Raise ValueError))) p = false ->
     fs (snd (cleanup_files [Some ex_temp; Some p]
                (snd (ocr_command ex_event (ex_world (Raise ValueError))))))
       !! p = None).
Proof.
  apply (ocr_command_artifacts_removed ex_event (ex_world (Raise ValueError))
           ex_image [] ex_temp (Some ex_path)
           (ex_fetched (ex_world (Raise ValueError)))).
  - vm_compute; reflexivity.
  - vm_compute; reflexivity.
  - by vm_compute.
Defined.

Lemma init_then_first_token_witness :
  temp_dir (self (ex_world (Raise ValueError)))
  = path_join (py "/tmp") (py "astrbot_ocr")
  /\ fs (ex_world (Raise ValueError))
       !! temp_dir (self (ex_world (Raise ValueError))) = Some Dir
  /\ requests (ex_world (Raise ValueError))
     = requests (ex_boot (ex_env (Raise ValueError)))
  /\ (configured (self (ex_world (Raise ValueError))) ->
      requests (snd (get_access_token (ex_world (Raise ValueError))))
      = requests (ex_boot (ex_env (Raise ValueError)))
        ++ [token_request (self (ex_world (Raise ValueError)))])
  /\ (~ configured (self (ex_world (Raise ValueError))) ->
      get_access_token (ex_world (Raise ValueError))
      = (Ok PNone, ex_world (Raise ValueError))).
Proof.
  apply (init_then_first_token (py "/tmp") ex_config
           (ex_boot (ex_env (Raise ValueError))) (ex_world (Raise ValueError))).
  vm_compute; reflexivity.
Defined.

(** The world after the download and the token exchange. *)
Definition ex_tokened_after_fetch : World :=
  snd (get_access_token (ex_fetched (ex_world (Raise ValueError)))).

Lemma perform_ocr_requests_witness :
  exists image,
    requests (snd (_perform_ocr ex_temp (ex_fetched (ex_world (Raise ValueError)))))
    = requests ex_tokened_after_fetch ++
      [{| req_url := ocr_url (self ex_tokened_after_fetch)
                     ++ py "?access_token=" ++ py "T0K";
          req_data := [(py "image", image);
                       (py "language_type", py "CHN_ENG");
                       (py "detect_direction", py "true");
                       (py "paragraph", py "true");
                       (py "probability", py "false")] |}]
    /\ b64decode image = Some [Byte.x41]
    /\ forall s, b64decode s = Some [Byte.x41] -> s = image.
Proof.
  refine (proj1 (proj2 (proj2
    (perform_ocr_requests ex_temp (ex_fetched (ex_world (Raise ValueError)))
       (PStr (py "T0K")) ex_tokened_after_fetch _)))
    (py "T0K") [Byte.x41] eq_refl _ _).
  - vm_compute; reflexivity.
  - by vm_compute.
  - vm_compute; reflexivity.
Defined.

Lemma download_image_same_second_witness :
  ex_temp = ex_temp /\
  exists p data,
    Some ex_path = Some p /\
    fs (ex_fetched (ex_fetched ex_offline)) !! p = Some (File data) /\
    fs (ex_fetched (ex_fetched ex_offline)) !! ex_temp = Some (File data).
Proof.
  apply (download_image_same_second ex_event (py "f1") ex_event (py "f1")
           ex_offline ex_temp (Some ex_path) (ex_fetched ex_offline)
           ex_temp (Some ex_path) (ex_fetched (ex_fetched ex_offline))).
  - vm_compute; reflexivity.
  - by vm_compute.
  - vm_compute; reflexivity.
  - by vm_compute.
  - vm_compute; reflexivity.
Defined.
